(** * speech-generator: text-to-speech command-line programs

    A shallow embedding of the two programs of the repository,
    [src/tts.js] (chunked provider, streamed WAV assembly) and
    [src/tts-gemini.js] (single-shot provider, hand-built WAV header),
    and the properties of their chunking, assembly, header construction
    and failure paths. *)

From Stdlib Require Import ZArith NArith List String Ascii Lia Bool.
From Stdlib.Strings Require Import Byte.
From stdpp Require Import base option list gmap strings.

Local Open Scope Z_scope.

(** ** JavaScript strings

    A JavaScript string is a sequence of UTF-16 code units; [length],
    [slice] and [trim] all work on code units. *)

Abbreviation jsstring := (list N).

(** An ASCII literal as a JavaScript string. *)
Definition js (s : string) : jsstring :=
  map N_of_ascii (list_ascii_of_string s).

Definition len {A} (l : list A) : Z := Z.of_nat (length l).

(** Relative index of [slice]: a negative index counts from the end, and
    the result is clamped to [0, len]. *)
Definition rel_index (n i : Z) : Z :=
  if i <? 0 then Z.max (n + i) 0 else Z.min i n.

(** [String.prototype.slice(start, stop)] and [Buffer.prototype.slice]:
    the elements from [start] up to [stop], both taken relative and
    clamped; empty when [stop] is not after [start]. *)
Definition slice {A} (l : list A) (start stop : Z) : list A :=
  let from := rel_index (len l) start in
  let to := rel_index (len l) stop in
  firstn (Z.to_nat (to - from)) (skipn (Z.to_nat from) l).

(** [buf.slice(start)]: the end defaults to the length. *)
Definition slice_from {A} (l : list A) (start : Z) : list A :=
  slice l start (len l).

(** ** The chunker of [main] in src/tts.js

<<
  const CHUNK_LEN = 8000;
  const chunks = [];
  for (let i = 0; i < text.length; i += CHUNK_LEN) {
    chunks.push(text.slice(i, i + CHUNK_LEN));
  }
>>
    The loop is run with a bound on its iterations; [length text]
    iterations always suffice since [i] grows by [CHUNK_LEN] each time
    (lemmas [chunk_loop_fuel] and [chunker_fuel_enough]). *)

Definition CHUNK_LEN : Z := 8000.

Fixpoint chunk_loop (fuel : nat) (text : jsstring) (i : Z)
    (chunks : list jsstring) : list jsstring :=
  match fuel with
  | O => chunks
  | S fuel' =>
      if i <? len text
      then chunk_loop fuel' text (i + CHUNK_LEN)
             (chunks ++ [slice text i (i + CHUNK_LEN)])
      else chunks
  end.

Definition chunker (text : jsstring) : list jsstring :=
  chunk_loop (length text) text 0 [].

(** ** [String.prototype.trim]

    [trim] removes WhiteSpace and LineTerminator code units (ECMAScript
    12.2 and 12.3) from both ends. *)

Definition is_white_space (c : N) : bool :=
  ((c =? 0x9) || (c =? 0xA) || (c =? 0xB) || (c =? 0xC) || (c =? 0xD)
   || (c =? 0x20) || (c =? 0xA0) || (c =? 0x1680)
   || ((0x2000 <=? c) && (c <=? 0x200A))
   || (c =? 0x2028) || (c =? 0x2029) || (c =? 0x202F) || (c =? 0x205F)
   || (c =? 0x3000) || (c =? 0xFEFF))%N.

(** The white space at the head dropped. *)
Fixpoint trim_start (s : jsstring) : jsstring :=
  match s with
  | c :: s' => if is_white_space c then trim_start s' else s
  | [] => []
  end.

(** The white space at the tail dropped. *)
Fixpoint trim_end (s : jsstring) : jsstring :=
  match s with
  | c :: s' =>
      match trim_end s' with
      | [] => if is_white_space c then [] else [c]
      | t => c :: t
      end
  | [] => []
  end.

Definition trim (s : jsstring) : jsstring := trim_end (trim_start s).

(** JavaScript truthiness of a value that is a string or [undefined]:
    [undefined] and the empty string are falsy. *)
Definition truthy (v : option jsstring) : bool :=
  match v with
  | Some (_ :: _) => true
  | _ => false
  end.

(** [v || d] on such a value. *)
Definition or_default (v : option jsstring) (d : jsstring) : jsstring :=
  match v with
  | Some (c :: s) => c :: s
  | _ => d
  end.

(** ** [parseFloat]

    The builtin, after ECMAScript 19.2.4: leading white space is skipped
    and the longest prefix that is a StrDecimalLiteral is read; there is
    no such prefix exactly when the result is NaN.  The number read is
    kept as the exact decimal [mant * 10 ^ exp10] with its sign: the
    rounding of that decimal to a binary64 value is outside this
    embedding, and nothing below depends on it. *)

Inductive number :=
  | NaN
  | Infinity (neg : bool)
  | Decimal (neg : bool) (mant : N) (exp10 : Z).

Definition is_digit (c : N) : bool := ((0x30 <=? c) && (c <=? 0x39))%N.

(** The longest run of decimal digits at the head, as digit values. *)
Fixpoint take_digits (s : jsstring) : list N * jsstring :=
  match s with
  | c :: s' =>
      if is_digit c
      then let '(ds, r) := take_digits s' in ((c - 0x30)%N :: ds, r)
      else ([], s)
  | [] => ([], [])
  end.

Definition digits_value (ds : list N) : N :=
  fold_left (fun a d => (10 * a + d)%N) ds 0%N.

Fixpoint starts_with (p s : jsstring) : bool :=
  match p, s with
  | [], _ => true
  | a :: p', b :: s' => (a =? b)%N && starts_with p' s'
  | _ :: _, [] => false
  end.

(** An optional sign: [true] for a minus. *)
Definition take_sign (s : jsstring) : bool * jsstring :=
  match s with
  | c :: s' =>
      if (c =? 0x2D)%N then (true, s')
      else if (c =? 0x2B)%N then (false, s')
      else (false, s)
  | [] => (false, [])
  end.

(** ExponentPart, when one is there: [e] or [E], an optional sign and at
    least one digit; otherwise the literal ends before it. *)
Definition parse_exponent (s : jsstring) : Z :=
  match s with
  | c :: s' =>
      if ((c =? 0x65) || (c =? 0x45))%N then
        let '(neg, s'') := take_sign s' in
        let '(ds, _) := take_digits s'' in
        match ds with
        | [] => 0
        | _ => let v := Z.of_N (digits_value ds) in if neg then - v else v
        end
      else 0
  | [] => 0
  end.

Definition parseFloat (input : jsstring) : number :=
  let '(neg, s) := take_sign (trim_start input) in
  if starts_with (js "Infinity") s then Infinity neg else
  let '(int_ds, s1) := take_digits s in
  let '(frac_ds, s2) :=
    match s1 with
    | c :: r => if (c =? 0x2E)%N then take_digits r else ([], s1)
    | [] => ([], s1)
    end in
  match int_ds ++ frac_ds with
  | [] => NaN
  | ds => Decimal neg (digits_value ds) (parse_exponent s2 - len frac_ds)
  end.

(** The rational a [Decimal] stands for, as numerator and denominator. *)
Definition decimal_value (m : N) (e : Z) : Z * Z :=
  if 0 <=? e then (Z.of_N m * 10 ^ e, 1) else (Z.of_N m, 10 ^ (- e)).

(** ** Buffers

    A Node [Buffer] is a sequence of bytes. *)

Abbreviation buffer := (list byte).

Definition byte_of_Z (z : Z) : byte :=
  default x00 (Byte.of_N (Z.to_N (z mod 256))).

Definition Z_of_byte (b : byte) : Z := Z.of_N (Byte.to_N b).

(** What a JavaScript exception of these programs can be. *)
Inductive error :=
  | ProviderError (tag : nat)  (* a rejected synthesis request *)
  | RangeError                 (* ERR_OUT_OF_RANGE of a Buffer write *)
  | IOError.                   (* a failed file-system call *)

(** The result of a computation: a value, a thrown exception, or the end
    of the process by [process.exit(code)]. *)
Inductive result (A : Type) :=
  | Val (a : A)
  | Throw (e : error)
  | Exit (code : Z).
Arguments Val {A} a.
Arguments Throw {A} e.
Arguments Exit {A} code.

(** A function that returns or throws: [inl e] is the exception. *)
#[export] Instance fallible_ret : MRet (sum error) := fun A a => inr a.
#[export] Instance fallible_bind : MBind (sum error) := fun A B k r =>
  match r with
  | inr a => k a
  | inl e => inl e
  end.

Definition Buffer_alloc (n : nat) : buffer := repeat x00 n.

(** The bytes of [buf] from [offset] on replaced by [bs]. *)
Definition overwrite (buf : buffer) (offset : Z) (bs : list byte) : buffer :=
  firstn (Z.to_nat offset) buf ++ bs
    ++ skipn (Z.to_nat offset + length bs) buf.

(** [buf.write(string, offset, length, "ascii")]: offset and length are
    validated against the buffer, then at most [length] code units are
    written, each one reduced to its low byte, as far as the buffer has
    room. *)
Definition Buffer_write (buf : buffer) (s : jsstring) (offset length : Z)
    : error + buffer :=
  if (offset <? 0) || (len buf <? offset) then inl RangeError
  else if (length <? 0) || (len buf <? length) then inl RangeError
  else
    let n := Z.min length (len buf - offset) in
    inr (overwrite buf offset
           (map (fun c => byte_of_Z (Z.of_N c)) (firstn (Z.to_nat n) s))).

(** The [n] low bytes of [value], least significant first. *)
Fixpoint le_bytes (n : nat) (value : Z) : list byte :=
  match n with
  | O => []
  | S n' => byte_of_Z (Z.land value 255) :: le_bytes n' (Z.shiftr value 8)
  end.

(** [buf.writeUIntLE] for [n] bytes: the value is range-checked
    (ERR_OUT_OF_RANGE outside [0, 2^(8n) - 1]), then the offset. *)
Definition writeUIntLE (n : nat) (buf : buffer) (value offset : Z)
    : error + buffer :=
  if (value <? 0) || (2 ^ (8 * Z.of_nat n) - 1 <? value) then inl RangeError
  else if (offset <? 0) || (len buf <? offset + Z.of_nat n)
  then inl RangeError
  else inr (overwrite buf offset (le_bytes n value)).

Definition writeUInt32LE := writeUIntLE 4.
Definition writeUInt16LE := writeUIntLE 2.

(** Reading a little-endian field back, as [buf.readUIntLE] does. *)
Fixpoint le_value (bs : list byte) : Z :=
  match bs with
  | [] => 0
  | b :: bs' => Z_of_byte b + 256 * le_value bs'
  end.

Definition readUIntLE (n : nat) (buf : buffer) (offset : Z) : option Z :=
  if (offset <? 0) || (len buf <? offset + Z.of_nat n) then None
  else Some (le_value (firstn n (skipn (Z.to_nat offset) buf))).

Definition readUInt32LE := readUIntLE 4.

(** ** The process and its surroundings *)

(** Lines on the error stream. *)
Inductive message :=
  | MissingCredential (var : string)  (* "ERROR: <var> missing in .env" *)
  | Usage                             (* the USAGE text *)
  | FileNotFound (path : jsstring)    (* "ERROR: input file not found" *)
  | EmptyInput                        (* "ERROR: input file is empty" *)
  | TtsFailed (e : error)             (* "TTS generation failed:" err *)
  | NoAudioReturned                   (* "ERROR: no audio returned ..." *)
  | GenerationFailed (e : error).     (* "Generation failed:" err *)

(** Lines on the output stream. *)
Inductive info :=
  | ChunkProgress (i n : Z)         (* "(TTS) chunk i/n" *)
  | Success (path : jsstring)
  | ModelLine (model : jsstring) (voice_speed : option (jsstring * number))
  | Generating (model voice : jsstring)
  | Saved (path : jsstring).

(** The parameters of [client.audio.speech.create]; an absent key is
    [None]. *)
Record speech_params := {
  model : jsstring;
  input : jsstring;
  format : jsstring;
  instructions : option jsstring;
  voice : option jsstring;
  speed : option number;
}.

(** The parameters of [ai.models.generateContent] that vary. *)
Record generate_params := {
  g_model : jsstring;
  g_text : jsstring;
  g_voiceName : jsstring;
}.

(** The structured reply of the single-shot provider, as far as the
    program looks into it. *)
Record inline_data := { data : option jsstring }.
Record part := { inlineData : option inline_data }.
Record content := { parts : option (list part) }.
Record candidate := { content_of : option content }.
Record response := { candidates : option (list candidate) }.

Inductive request :=
  | SpeechCreate (p : speech_params)
  | GenerateContent (p : generate_params).

(** What the process does to the outside, in order. *)
Inductive event :=
  | Stderr (m : message)
  | Stdout (l : info)
  | FsExists (p : jsstring)
  | FsRead (p : jsstring)
  | FsMkdir (p : jsstring)
  | FsOpen (p : jsstring)
  | FsWrite (p : jsstring)
  | FsUnlink (p : jsstring)
  | FsClose (p : jsstring)
  | Network (r : request).

(** Builtins of the platform that are left abstract: path handling and
    the text codecs. *)
Class Platform := {
  resolve : jsstring -> jsstring;          (* path.resolve *)
  dirname : jsstring -> jsstring;          (* path.dirname *)
  utf8_decode : buffer -> jsstring;        (* readFileSync(_, "utf8") *)
  base64_decode : jsstring -> buffer;      (* Buffer.from(_, "base64") *)
}.

(** The surroundings of one run.  [w_env] is [process.env] once dotenv's
    [config()] has merged the .env file into it.  [w_speech i p] is the
    outcome of the [i]-th call of the chunked provider, the body of the
    response or a rejection.  [w_write_fault = Some k] is a device that
    takes [k] bytes of a [writeFileSync] and then fails; the faults of
    the write stream of src/tts.js, which come as events outside the
    control flow, are not part of the model. *)
Record world := {
  w_env : gmap string jsstring;
  w_argv : list jsstring;
  w_fs : gmap jsstring buffer;
  w_speech : nat -> speech_params -> error + buffer;
  w_generate : generate_params -> error + option response;
  w_write_fault : option nat;
}.

Record state := {
  fs : gmap jsstring buffer;
  trace : list event;
}.

Definition M (A : Type) : Type := state -> result A * state.

#[export] Instance M_ret : MRet M := fun A a s => (Val a, s).
#[export] Instance M_bind : MBind M := fun A B k m s =>
  match m s with
  | (Val a, s') => k a s'
  | (Throw e, s') => (Throw e, s')
  | (Exit c, s') => (Exit c, s')
  end.

(** A call that returns or throws, within the process. *)
Definition lift {A} (r : error + A) : M A := fun s =>
  match r with
  | inr a => (Val a, s)
  | inl e => (Throw e, s)
  end.

Definition emit (e : event) : M unit := fun s =>
  (Val tt, {| fs := fs s; trace := trace s ++ [e] |}).

Definition update_fs (f : gmap jsstring buffer -> gmap jsstring buffer)
    : M unit := fun s =>
  (Val tt, {| fs := f (fs s); trace := trace s |}).

Definition when (b : bool) (m : M unit) : M unit :=
  if b then m else mret tt.

Definition console_error (m : message) : M unit := emit (Stderr m).
Definition console_log (l : info) : M unit := emit (Stdout l).

Definition process_exit {A} (code : Z) : M A := fun s => (Exit code, s).

(** [try { body } catch (err) { handler }]; a process that has exited
    runs nothing more. *)
Definition try_catch {A} (body : M A) (handler : error -> M A) : M A :=
  fun s =>
    match body s with
    | (Throw e, s') => handler e s'
    | r => r
    end.

(** [try { body } catch (err) { handler } finally { final }]. *)
Definition try_catch_finally {A} (body : M A) (handler : error -> M A)
    (final : M unit) : M A := fun s =>
  match try_catch body handler s with
  | (Val a, s') => (final ;; mret a) s'
  | (Throw e, s') => (final ;; lift (inl e)) s'
  | (Exit c, s') => (Exit c, s')
  end.

Definition fs_existsSync (p : jsstring) : M bool := fun s =>
  (Val (bool_decide (is_Some (fs s !! p))),
   {| fs := fs s; trace := trace s ++ [FsExists p] |}).

(** [fs.readFileSync(p, "utf8")].  A path holds a readable file or
    nothing: directories and unreadable files, which pass [existsSync]
    and make the read throw, are not part of the model. *)
Definition fs_readFileSync `{Platform} (p : jsstring) : M jsstring :=
  emit (FsRead p) ;;
  ((fun s =>
      match fs s !! p with
      | Some bytes => (Val (utf8_decode bytes), s)
      | None => (Throw IOError, s)
      end) : M jsstring).

(** [fs.mkdirSync(p, { recursive: true })], recorded in the trace; the
    state holds files only, and a directory that cannot be made is not
    part of the model. *)
Definition fs_mkdirSync (p : jsstring) : M unit := emit (FsMkdir p).

(** [fs.createWriteStream(p)]: the file is created, or emptied.  The
    stream is one that works: a failed open or write of it is not part
    of the model (see [world]). *)
Definition fs_createWriteStream (p : jsstring) : M jsstring :=
  emit (FsOpen p) ;; update_fs (insert p []) ;; mret p.

(** [out.write(bytes)] on the stream of [p]. *)
Definition stream_write (p : jsstring) (bytes : buffer) : M unit :=
  emit (FsWrite p) ;;
  update_fs (fun m => <[p := default [] (m !! p) ++ bytes]> m).

Definition stream_end (p : jsstring) : M unit := emit (FsClose p).

Definition fs_unlinkSync (p : jsstring) : M unit :=
  emit (FsUnlink p) ;; update_fs (delete p).

(** [fs.writeFileSync(p, bytes)]: the file is created or emptied and the
    bytes written; on a faulty device only the first ones are, and the
    call throws. *)
Definition fs_writeFileSync (fault : option nat) (p : jsstring)
    (bytes : buffer) : M unit :=
  emit (FsWrite p) ;;
  match fault with
  | Some k =>
      if bool_decide (k < length bytes)%nat
      then update_fs (insert p (firstn k bytes)) ;; lift (inl IOError)
      else update_fs (insert p bytes)
  | None => update_fs (insert p bytes)
  end.

(** An asynchronous call of a provider, awaited. *)
Definition await {A} (r : request) (outcome : error + A) : M A :=
  emit (Network r) ;; lift outcome.

(** The exit code of the process: 0 when the program runs to its end,
    the argument of [process.exit], and 1 for an exception nobody
    caught. *)
Definition exit_code {A} (r : result A) : Z :=
  match r with
  | Val _ => 0
  | Exit c => c
  | Throw _ => 1
  end.

Definition requests (t : list event) : list request :=
  omap (fun e => match e with Network r => Some r | _ => None end) t.

Definition errors (t : list event) : list message :=
  omap (fun e => match e with Stderr m => Some m | _ => None end) t.

Definition start (w : world) : state := {| fs := w_fs w; trace := [] |}.

(** ** src/tts.js: the chunked provider *)

Module Tts.
Section Program.
Context `{Platform}.
Variable w : world.

Definition MODEL : jsstring :=
  or_default (w_env w !! "TTS_MODEL") (js "tts-1-hd").
Definition VOICE : jsstring :=
  or_default (w_env w !! "TTS_VOICE") (js "fable").
Definition SPEED : number :=
  parseFloat (or_default (w_env w !! "TTS_SPEED") (js "1.0")).
Definition INSTR : jsstring :=
  or_default (w_env w !! "TTS_INSTR")
    (js "Calm, slightly dramatic storyteller.").

Definition HEADER_BYTES : Z := 44.

(** The [params] of one chunk. *)
Definition params_of (chunk : jsstring) : speech_params :=
  if decide (MODEL = js "gpt-4o-mini-tts")
  then {| model := MODEL; input := chunk; format := js "wav";
          instructions := Some INSTR; voice := None; speed := None |}
  else {| model := MODEL; input := chunk; format := js "wav";
          instructions := None; voice := Some VOICE;
          speed := Some SPEED |}.

(** The body of the [try]: the loop over [chunks], here at index [i]
    with the chunks from [i] on still to do; [n] is [chunks.length] and
    [out] the stream.  The await covers both the request and the
    reading of its body. *)
Fixpoint synthesis (out : jsstring) (n : nat) (i : nat)
    (rest : list jsstring) : M unit :=
  match rest with
  | [] => mret tt
  | chunk :: rest' =>
      console_log (ChunkProgress (Z.of_nat i + 1) (Z.of_nat n)) ;;
      buffer ← await (SpeechCreate (params_of chunk))
                 (w_speech w i (params_of chunk)) ;
      (if decide (i = 0%nat)
       then stream_write out buffer
       else stream_write out (slice_from buffer HEADER_BYTES)) ;;
      synthesis out n (S i) rest'
  end.

Definition main : M unit :=
  let inFile := w_argv w !! 2%nat in
  let outFile := w_argv w !! 3%nat in
  when (negb (truthy (w_env w !! "OPENAI_API_KEY")))
    (console_error (MissingCredential "OPENAI_API_KEY") ;;
     process_exit 1) ;;
  when (negb (truthy inFile) || negb (truthy outFile))
    (console_error Usage ;; process_exit 1) ;;
  let absIn := resolve (default [] inFile) in
  let absOut := resolve (default [] outFile) in
  found ← fs_existsSync absIn ;
  when (negb found)
    (console_error (FileNotFound absIn) ;; process_exit 1) ;;
  raw ← fs_readFileSync absIn ;
  let text := trim raw in
  when (negb (truthy (Some text)))
    (console_error EmptyInput ;; process_exit 1) ;;
  (* [new OpenAI()] does nothing to the outside. *)
  let chunks := chunker text in
  fs_mkdirSync (dirname absOut) ;;
  out ← fs_createWriteStream absOut ;
  try_catch_finally
    (synthesis out (length chunks) 0 chunks)
    (fun err =>
       console_error (TtsFailed err) ;;
       there ← fs_existsSync absOut ;
       when there (fs_unlinkSync absOut) ;;
       process_exit 1)
    (stream_end out) ;;
  console_log (Success absOut) ;;
  console_log
    (ModelLine MODEL
       (if starts_with (js "tts") MODEL then Some (VOICE, SPEED)
        else None)).

Definition run : result unit * state := main (start w).
End Program.
End Tts.

(** ** src/tts-gemini.js: the single-shot provider *)

Module Gemini.
Section Program.
Context `{Platform}.
Variable w : world.

Definition API_KEY : option jsstring := w_env w !! "GEMINI_API_KEY".
Definition MODEL : jsstring :=
  or_default (w_env w !! "GEMINI_TTS_MODEL")
    (js "gemini-2.5-flash-preview-tts").
Definition VOICE : jsstring :=
  or_default (w_env w !! "GEMINI_VOICE") (js "Iapetus").
Definition STYLE : jsstring :=
  or_default (w_env w !! "GEMINI_STYLE")
    (js "Neutral storyteller with a mild British accent and a very slight dramatic tone").

(** The 44 bytes that [saveWav] fills in before it writes. *)
Definition wav_header (dataSize sampleRate : Z) : error + buffer :=
  let header := Buffer_alloc 44 in
  let bytesPerSample := 2 in
  let byteRate := sampleRate * bytesPerSample in
  header ← Buffer_write header (js "RIFF") 0 4 ;
  header ← writeUInt32LE header (36 + dataSize) 4 ;
  header ← Buffer_write header (js "WAVE") 8 4 ;
  header ← Buffer_write header (js "fmt ") 12 4 ;
  header ← writeUInt32LE header 16 16 ;
  header ← writeUInt16LE header 1 20 ;
  header ← writeUInt16LE header 1 22 ;
  header ← writeUInt32LE header sampleRate 24 ;
  header ← writeUInt32LE header byteRate 28 ;
  header ← writeUInt16LE header bytesPerSample 32 ;
  header ← writeUInt16LE header (8 * bytesPerSample) 34 ;
  header ← Buffer_write header (js "data") 36 4 ;
  writeUInt32LE header dataSize 40.

Definition saveWav (filename : jsstring) (pcm : buffer)
    (sampleRate : Z) : M unit :=
  header ← lift (wav_header (len pcm) sampleRate) ;
  fs_mkdirSync (dirname filename) ;;
  fs_writeFileSync (w_write_fault w) filename (header ++ pcm).

(** [response?.candidates?.[0]?.content?.parts?.[0]?.inlineData?.data] *)
Definition audio_of (reply : option response) : option jsstring :=
  r ← reply ; cs ← candidates r ; c ← cs !! 0%nat ;
  ct ← content_of c ; ps ← parts ct ; p ← ps !! 0%nat ;
  d ← inlineData p ; data d.

(** The whole script: the statements of the module, then the
    asynchronous block with its [catch]. *)
Definition script : M unit :=
  when (negb (truthy API_KEY))
    (console_error (MissingCredential "GEMINI_API_KEY") ;;
     process_exit 1) ;;
  let inFile := w_argv w !! 2%nat in
  let outFile := w_argv w !! 3%nat in
  when (negb (truthy inFile) || negb (truthy outFile))
    (console_error Usage ;; process_exit 1) ;;
  let absIn := resolve (default [] inFile) in
  let absOut := resolve (default [] outFile) in
  found ← fs_existsSync absIn ;
  when (negb found)
    (console_error (FileNotFound absIn) ;; process_exit 1) ;;
  raw ← fs_readFileSync absIn ;
  let rawText := trim raw in
  when (negb (truthy (Some rawText)))
    (console_error EmptyInput ;; process_exit 1) ;;
  let text := STYLE ++ [0x3A; 0xA]%N ++ rawText in
  try_catch
    (console_log (Generating MODEL VOICE) ;;
     let params :=
       {| g_model := MODEL; g_text := text; g_voiceName := VOICE |} in
     reply ← await (GenerateContent params) (w_generate w params) ;
     let base64 := audio_of reply in
     when (negb (truthy base64))
       (console_error NoAudioReturned ;; process_exit 1) ;;
     let pcm := base64_decode (default [] base64) in
     saveWav absOut pcm 24000 ;;
     console_log (Saved absOut))
    (fun err =>
       console_error (GenerationFailed err) ;; process_exit 1).

Definition run : result unit * state := script (start w).
End Program.
End Gemini.

(** ** What the loops and the runs come to

    Closed descriptions of the chunks, of the header, and of the final
    state of a run that gets past its checks; each is proved below to be
    what the program computes. *)

(** What the chunks added by the loop from index [i] on look like. *)
Definition chunks_from (text : jsstring) (i : Z) (new : list jsstring) : Prop :=
  concat new = drop (Z.to_nat i) text
  /\ len new = (Z.max 0 (len text - i) + (CHUNK_LEN - 1)) / CHUNK_LEN
  /\ (forall j c, new !! j = Some c ->
        1 <= len c <= CHUNK_LEN
        /\ ((S j < length new)%nat -> len c = CHUNK_LEN)).

(** An ASCII literal as bytes. *)
Definition ascii_bytes (s : string) : list byte :=
  map (fun c => byte_of_Z (Z.of_N c)) (js s).

(** The header of [saveWav] at its sample rate of 24000, spelled out. *)
Definition riff_header (dataSize : Z) : buffer :=
  ascii_bytes "RIFF" ++ le_bytes 4 (36 + dataSize)
  ++ ascii_bytes "WAVE" ++ ascii_bytes "fmt " ++ le_bytes 4 16
  ++ le_bytes 2 1 ++ le_bytes 2 1 ++ le_bytes 4 24000 ++ le_bytes 4 48000
  ++ le_bytes 2 2 ++ le_bytes 2 16
  ++ ascii_bytes "data" ++ le_bytes 4 dataSize.

(** What the loop writes of the response to call [i]. *)
Definition piece (i : nat) (buf : buffer) : buffer :=
  if decide (i = 0%nat) then buf else slice_from buf Tts.HEADER_BYTES.

(** The loop from index [i] on: what it writes, what it does to the
    outside, and the exception it stops at, if any. *)
Fixpoint synth_outcome (w : world) (out : jsstring) (n i : nat)
    (rest : list jsstring) : list buffer * list event * option error :=
  match rest with
  | [] => ([], [], None)
  | chunk :: rest' =>
      let p := Tts.params_of w chunk in
      let asked := [Stdout (ChunkProgress (Z.of_nat i + 1) (Z.of_nat n));
                    Network (SpeechCreate p)] in
      match w_speech w i p with
      | inl e => ([], asked, Some e)
      | inr buf =>
          let '(bs, evs, err) := synth_outcome w out n (S i) rest' in
          (piece i buf :: bs, asked ++ FsWrite out :: evs, err)
      end
  end.

(** The result of a block that stopped at [err], or did not stop. *)
Definition thrown (err : option error) : result unit :=
  match err with
  | None => Val tt
  | Some e => Throw e
  end.

(** A run that gets to its input: the credential [key] is set, both
    arguments are given, and the input file is there and reads as
    [raw]. *)
Definition invocation `{Platform} (key : string) (w : world)
    (inFile outFile raw : jsstring) : Prop :=
  truthy (w_env w !! key) = true
  /\ w_argv w !! 2%nat = Some inFile /\ truthy (Some inFile) = true
  /\ w_argv w !! 3%nat = Some outFile /\ truthy (Some outFile) = true
  /\ exists bytes, w_fs w !! resolve inFile = Some bytes
                   /\ utf8_decode bytes = raw.

(** The end of a run of src/tts.js on the trimmed, non-empty [text]. *)
Definition tts_outcome `{Platform} (w : world)
    (inFile outFile text : jsstring) : result unit * state :=
  let absIn := resolve inFile in
  let absOut := resolve outFile in
  let chunks := chunker text in
  let '(bs, evs, err) := synth_outcome w absOut (length chunks) 0 chunks in
  let opened := [FsExists absIn; FsRead absIn; FsMkdir (dirname absOut);
                 FsOpen absOut] in
  match err with
  | None =>
      (Val tt,
       {| fs := <[absOut := concat bs]> (w_fs w);
          trace := opened ++ evs
            ++ [FsClose absOut; Stdout (Success absOut);
                Stdout (ModelLine (Tts.MODEL w)
                          (if starts_with (js "tts") (Tts.MODEL w)
                           then Some (Tts.VOICE w, Tts.SPEED w) else None))] |})
  | Some e =>
      (Exit 1,
       {| fs := delete absOut (w_fs w);
          trace := opened ++ evs
            ++ [Stderr (TtsFailed e); FsExists absOut; FsUnlink absOut] |})
  end.

(** The one request of src/tts-gemini.js. *)
Definition gemini_params (w : world) (rawText : jsstring)
    : generate_params :=
  {| g_model := Gemini.MODEL w;
     g_text := Gemini.STYLE w ++ [0x3A; 0xA]%N ++ rawText;
     g_voiceName := Gemini.VOICE w |}.

(** The end of a run of src/tts-gemini.js on the trimmed, non-empty
    [rawText]. *)
Definition gemini_outcome `{Platform} (w : world)
    (inFile outFile rawText : jsstring) : result unit * state :=
  let absIn := resolve inFile in
  let absOut := resolve outFile in
  let params := gemini_params w rawText in
  let asked := [FsExists absIn; FsRead absIn;
                Stdout (Generating (Gemini.MODEL w) (Gemini.VOICE w));
                Network (GenerateContent params)] in
  let failed (m : message) :=
    (Exit 1, {| fs := w_fs w; trace := asked ++ [Stderr m] |}) in
  match w_generate w params with
  | inl e => failed (GenerationFailed e)
  | inr reply =>
      match Gemini.audio_of reply with
      | Some (c :: b64) =>
          let pcm := base64_decode (c :: b64) in
          match Gemini.wav_header (len pcm) 24000 with
          | inr header =>
              let file := header ++ pcm in
              let written :=
                asked ++ [FsMkdir (dirname absOut); FsWrite absOut] in
              let saved :=
                (Val tt, {| fs := <[absOut := file]> (w_fs w);
                            trace := written ++ [Stdout (Saved absOut)] |}) in
              match w_write_fault w with
              | Some k =>
                  if bool_decide (k < length file)%nat
                  then (Exit 1,
                        {| fs := <[absOut := take k file]> (w_fs w);
                           trace := written
                             ++ [Stderr (GenerationFailed IOError)] |})
                  else saved
              | None => saved
              end
          | inl e => failed (GenerationFailed e)
          end
      | _ => failed NoAudioReturned
      end
  end.

(** The calls of the chunked provider from index [i] on are answered, in
    order, by [responses]. *)
Inductive answers (w : world) : nat -> list jsstring -> list buffer -> Prop :=
  | answers_nil i : answers w i [] []
  | answers_cons i chunk rest r rs :
      w_speech w i (Tts.params_of w chunk) = inr r ->
      answers w (S i) rest rs ->
      answers w i (chunk :: rest) (r :: rs).

(** One of the calls from index [i] on is rejected. *)
Definition rejected (w : world) (i : nat) (rest : list jsstring) : Prop :=
  exists j chunk e,
    rest !! j = Some chunk
    /\ w_speech w (i + j) (Tts.params_of w chunk) = inl e.

(** What the loop writes of [responses], the first of which answers call
    [i]. *)
Fixpoint pieces (i : nat) (responses : list buffer) : list buffer :=
  match responses with
  | [] => []
  | r :: rs => piece i r :: pieces (S i) rs
  end.

(** The sum of the lengths. *)
Definition sum_len (ps : list buffer) : Z :=
  fold_right (fun p n => len p + n) 0 ps.

(** ** A platform and surroundings to run the programs on

    Paths are given absolute, so that [resolve] leaves them alone; input
    files are ASCII, where a byte is a code unit. *)

(** [path.dirname] of an absolute path: what is before its last slash. *)
Definition posix_dirname (p : jsstring) : jsstring :=
  let slash c := bool_decide (c = 0x2F%N) in
  let fix drop_name (s : jsstring) : jsstring :=
    match s with
    | c :: s' => if slash c then s' else drop_name s'
    | [] => []
    end in
  match rev (drop_name (rev p)) with
  | [] => [0x2F%N]
  | d => d
  end.

(** Base64, standard and URL-safe alphabets; other code units, the
    padding among them, are skipped. *)
Definition base64_value (c : N) : option N :=
  (if (0x41 <=? c) && (c <=? 0x5A) then Some (c - 0x41)
   else if (0x61 <=? c) && (c <=? 0x7A) then Some (c - 0x61 + 26)
   else if (0x30 <=? c) && (c <=? 0x39) then Some (c - 0x30 + 52)
   else if (c =? 0x2B) || (c =? 0x2D) then Some 62
   else if (c =? 0x2F) || (c =? 0x5F) then Some 63
   else None)%N.

Fixpoint base64_bytes (fuel : nat) (vs : list N) : buffer :=
  let byte n := byte_of_Z (Z.of_N n) in
  match fuel, vs with
  | S fuel', a :: b :: c :: d :: vs' =>
      byte (a * 4 + b / 16)%N :: byte ((b mod 16) * 16 + c / 4)%N
        :: byte ((c mod 4) * 64 + d)%N :: base64_bytes fuel' vs'
  | _, [a; b; c] =>
      [byte (a * 4 + b / 16)%N; byte ((b mod 16) * 16 + c / 4)%N]
  | _, [a; b] => [byte (a * 4 + b / 16)%N]
  | _, _ => []
  end.

Definition example_platform : Platform :=
  {| resolve := id;
     dirname := posix_dirname;
     utf8_decode := map Byte.to_N;
     base64_decode := fun s =>
       let vs := omap base64_value s in base64_bytes (length vs) vs |}.

(** A run with the arguments [/in.txt] and [/out/speech.wav], [text]
    being the content of the former. *)
Definition example_world (env : gmap string jsstring) (text : buffer)
    (speech : nat -> speech_params -> error + buffer)
    (generate : generate_params -> error + option response)
    (fault : option nat) : world :=
  {| w_env := env;
     w_argv := [js "node"; js "script.js"; js "/in.txt"; js "/out/speech.wav"];
     w_fs := {[ js "/in.txt" := text ]};
     w_speech := speech;
     w_generate := generate;
     w_write_fault := fault |}.

Definition openai_env : gmap string jsstring :=
  {[ "OPENAI_API_KEY" := js "sk-test" ]}.
Definition gemini_env : gmap string jsstring :=
  {[ "GEMINI_API_KEY" := js "test-key" ]}.

(** Providers that reject every request. *)
Definition no_speech (i : nat) (p : speech_params) : error + buffer :=
  inl (ProviderError 0).
Definition no_generate (p : generate_params) : error + option response :=
  inl (ProviderError 0).

(** A text of 8003 code units: two chunks, of 8000 and of 3. *)
Definition long_text : buffer := repeat "a"%byte (Z.to_nat 8003).

(** [n] bytes of audio. *)
Definition payload (n : nat) (b : byte) : buffer := repeat b n.

(** A reply that carries [b64] as its audio. *)
Definition audio_reply (b64 : jsstring) : option response :=
  Some {| candidates := Some [ {| content_of := Some {| parts := Some
           [ {| inlineData := Some {| data := Some b64 |} |} ] |} |} ] |}.

(** The two programs on the example platform. *)
Definition run_openai := @Tts.run example_platform.
Definition run_gemini := @Gemini.run example_platform.

(** Two responses, each a valid container of its own with the same
    header, which declares the two bytes of one payload. *)
Definition same_header_world : world :=
  example_world openai_env long_text
    (fun i _ => inr (riff_header 2
                     ++ if decide (i = 0%nat) then payload 2 "x"
                        else payload 2 "y"))
    no_generate None.

(** The scenario of two responses of 44 + 100 and 44 + 50 bytes with
    headers of their own. *)
Definition two_chunk_world : world :=
  example_world openai_env long_text
    (fun i _ => inr (if decide (i = 0%nat)
                     then riff_header 100 ++ payload 100 "x"
                     else riff_header 50 ++ payload 50 "y"))
    no_generate None.

(** The second response is cut short, to ten bytes. *)
Definition short_response_world : world :=
  example_world openai_env long_text
    (fun i _ => inr (if decide (i = 0%nat)
                     then riff_header 100 ++ payload 100 "x"
                     else payload 10 "y"))
    no_generate None.

(** The second request is rejected. *)
Definition rejecting_world : world :=
  example_world openai_env long_text
    (fun i _ => if decide (i = 0%nat)
                then inr (riff_header 100 ++ payload 100 "x")
                else inl (ProviderError 503))
    no_generate None.

(** One chunk, with the speed variable set to [value]. *)
Definition speed_world (value : jsstring) : world :=
  example_world (<["TTS_SPEED" := value]> openai_env)
    (ascii_bytes "Hello world.")
    (fun _ _ => inr (riff_header 4 ++ payload 4 "x"))
    no_generate None.

(** The single-shot provider answers with [reply]. *)
Definition gemini_world (text : buffer) (reply : error + option response)
    (fault : option nat) : world :=
  example_world gemini_env text no_speech (fun _ => reply) fault.

(** Ten bytes of audio, [0..9], in base64. *)
Definition ten_bytes : jsstring := js "AAECAwQFBgcICQ==".

(** No variable is set at all. *)
Definition no_key_world : world :=
  example_world ∅ (ascii_bytes "Hello world.") no_speech no_generate None.

(** A file of white space: space, line feed, tab, space. *)
Definition blank_text : buffer := map byte_of_Z [32; 10; 9; 32].

(** ** Further descriptions and surroundings *)

(** The path the output goes to, as [main] resolves it. *)
Definition output_path `{Platform} (w : world) : jsstring :=
  resolve (default [] (w_argv w !! 3%nat)).

(** The request made for [chunk]. *)
Definition request_of (w : world) (chunk : jsstring) : request :=
  SpeechCreate (Tts.params_of w chunk).


(** Whether [parseFloat] finds a number at the head of the string, past
    white space and a sign: the word Infinity, a digit, or a dot and a
    digit. *)
Definition starts_with_number (input : jsstring) : bool :=
  let '(_, s) := take_sign (trim_start input) in
  starts_with (js "Infinity") s
  || match s with
     | c :: s' =>
         is_digit c
         || ((c =? 0x2E)%N
             && match s' with
                | d :: _ => is_digit d
                | [] => false
                end)
     | [] => false
     end.

(** The speed a request carries for the value of the speed variable. *)
Definition speed_sent (v : option jsstring) : number :=
  match v with
  | Some (c :: s) => parseFloat (c :: s)
  | _ => Decimal false 10 (-1)
  end.

(** The bytes the later responses add up to, once stripped. *)
Definition stripped_total (rs : list buffer) : Z :=
  fold_right (fun r n => Z.max 0 (len r - 44) + n) 0 rs.

(** A run with arguments and files of one's choice. *)
Definition world_of (env : gmap string jsstring) (argv : list jsstring)
    (files : gmap jsstring buffer)
    (speech : nat -> speech_params -> error + buffer)
    (generate : generate_params -> error + option response)
    (fault : option nat) : world :=
  {| w_env := env; w_argv := argv; w_fs := files;
     w_speech := speech; w_generate := generate; w_write_fault := fault |}.

(** Both credentials set. *)
Definition both_keys : gmap string jsstring :=
  <["GEMINI_API_KEY" := js "test-key"]> openai_env.

(** The output argument is missing. *)
Definition one_argument_world : world :=
  world_of both_keys [js "node"; js "script.js"; js "/in.txt"]
    {[ js "/in.txt" := ascii_bytes "Hello world." ]}
    no_speech no_generate None.

(** The input file is not there; another file is. *)
Definition missing_file_world : world :=
  world_of both_keys
    [js "node"; js "script.js"; js "/in.txt"; js "/out/speech.wav"]
    {[ js "/other.txt" := ascii_bytes "Hello world." ]}
    no_speech no_generate None.

(** The output is to go over the input, and the provider rejects. *)
Definition overwriting_world : world :=
  world_of openai_env
    [js "node"; js "script.js"; js "/in.txt"; js "/in.txt"]
    {[ js "/in.txt" := ascii_bytes "Hello world." ]}
    no_speech no_generate None.

(** The instruction-driven model, with voice and speed set all the same. *)
Definition instruction_world : world :=
  example_world
    (<["TTS_MODEL" := js "gpt-4o-mini-tts"]>
       (<["TTS_VOICE" := js "nova"]>
          (<["TTS_SPEED" := js "1.5"]> openai_env)))
    (ascii_bytes "Hello world.")
    (fun _ _ => inr (riff_header 4 ++ payload 4 "x"))
    no_generate None.

(** A reply whose first part is text and whose second carries audio. *)
Definition audio_in_second_part : option response :=
  Some {| candidates := Some [ {| content_of := Some {| parts := Some
           [ {| inlineData := None |};
             {| inlineData := Some {| data := Some ten_bytes |} |} ] |} |} ] |}.

(** * Properties *)

(** ** The builtins on examples *)

Example trim_both_ends : trim (js "  a b  ") = js "a b".
Proof. reflexivity. Qed.

Example trim_byte_order_mark : trim [0xFEFF; 0x20; 0x2028]%N = [].
Proof. reflexivity. Qed.

Example parseFloat_one : parseFloat (js "1.0") = Decimal false 10 (-1).
Proof. reflexivity. Qed.

Example parseFloat_one_is_one : decimal_value 10 (-1) = (10, 10).
Proof. reflexivity. Qed.

Example parseFloat_prefix : parseFloat (js " -.5e-2x") = Decimal true 5 (-3).
Proof. reflexivity. Qed.

Example parseFloat_dot_exponent : parseFloat (js "5.e3") = Decimal false 5 3.
Proof. reflexivity. Qed.

Example parseFloat_dangling_exponent : parseFloat (js "1e") = Decimal false 1 0.
Proof. reflexivity. Qed.

Example parseFloat_word : parseFloat (js "fast") = NaN.
Proof. reflexivity. Qed.

Example parseFloat_dot : parseFloat (js ".") = NaN.
Proof. reflexivity. Qed.

Example parseFloat_infinity : parseFloat (js "-Infinityx") = Infinity true.
Proof. reflexivity. Qed.

Example slice_negative : slice (js "abcdef") (-2) 6 = js "ef".
Proof. reflexivity. Qed.

Example slice_past_end : slice_from (js "abc") 44 = [].
Proof. reflexivity. Qed.

(** ** Slices *)

Lemma len_nonneg {A} (l : list A) : 0 <= len l.
Proof. unfold len. lia. Qed.

(** A slice of [n] elements from a non-negative index. *)
Lemma slice_window {A} (l : list A) (i n : Z) :
  0 <= i -> 0 <= n ->
  slice l i (i + n) = take (Z.to_nat n) (drop (Z.to_nat i) l).
Proof.
  intros Hi Hn. unfold slice, rel_index.
  pose proof (len_nonneg l) as Hl. unfold len in *.
  destruct (Z.ltb_spec i 0); [lia|].
  destruct (Z.ltb_spec (i + n) 0); [lia|].
  destruct (Z.le_gt_cases i (Z.of_nat (length l))) as [Hle|Hgt].
  - rewrite (Z.min_l i) by lia.
    destruct (Z.le_gt_cases (i + n) (Z.of_nat (length l))).
    + rewrite Z.min_l by lia. f_equal. lia.
    + rewrite Z.min_r by lia.
      rewrite !take_ge; first done.
      all: rewrite length_drop; lia.
  - rewrite !drop_ge by lia. by rewrite !take_nil.
Qed.

(** [slice] from a non-negative index to the end drops that many
    elements, all of them when the list is shorter. *)
Lemma slice_from_drop {A} (l : list A) (n : Z) :
  0 <= n -> slice_from l n = drop (Z.to_nat n) l.
Proof.
  intros Hn. unfold slice_from.
  replace (len l) with (n + (len l - n)) at 1 by lia.
  destruct (Z.le_gt_cases n (len l)) as [Hle|Hgt].
  - rewrite slice_window by lia. apply take_ge. rewrite length_drop. unfold len in *. lia.
  - unfold slice, rel_index, len in *.
    destruct (Z.ltb_spec n 0); [lia|].
    rewrite !drop_ge by lia. by rewrite take_nil.
Qed.

(** ** The chunker *)

(** The loop, run from index [i] with fuel for what is left of the
    text, appends chunks that are as [chunks_from] says. *)
Lemma chunk_loop_spec (text : jsstring) (fuel : nat) :
  forall (i : Z) (acc : list jsstring),
    0 <= i -> len text - i <= Z.of_nat fuel ->
    exists new, chunk_loop fuel text i acc = acc ++ new
                /\ chunks_from text i new.
Proof.
  unfold chunks_from, CHUNK_LEN.
  induction fuel as [|fuel IH]; intros i acc Hi Hfuel; simpl.
  - exists []. rewrite app_nil_r. split; [done|].
    rewrite drop_ge by (unfold len in *; lia).
    repeat split; try done.
    rewrite Z.max_l by lia. reflexivity.
  - destruct (Z.ltb_spec i (len text)) as [Hlt|Hge].
    + destruct (IH (i + CHUNK_LEN) (acc ++ [slice text i (i + CHUNK_LEN)]))
        as (new & Heq & Hcat & Hlen & Hall); unfold CHUNK_LEN in *; [lia..|].
      exists (slice text i (i + 8000) :: new).
      rewrite Heq, <- app_assoc. split; [done|].
      rewrite slice_window by lia.
      assert (Hc : len (take (Z.to_nat 8000) (drop (Z.to_nat i) text))
                   = Z.min 8000 (len text - i)).
      { unfold len in *. rewrite length_take, length_drop. lia. }
      repeat split.
      * simpl. rewrite Hcat.
        replace (Z.to_nat (i + 8000)) with (Z.to_nat i + Z.to_nat 8000)%nat by lia.
        rewrite <- drop_drop. apply take_drop.
      * unfold len in *. simpl length. rewrite Nat2Z.inj_succ, Hlen.
        rewrite (Z.max_r 0 (_ - i)) by lia.
        destruct (Z.max_spec 0 (Z.of_nat (length text) - (i + 8000))) as [[? ->]|[? ->]].
        -- replace (Z.of_nat (length text) - i + (8000 - 1))
             with (Z.of_nat (length text) - (i + 8000) + (8000 - 1) + 1 * 8000) by lia.
           rewrite Z.div_add by lia. lia.
        -- replace ((0 + (8000 - 1)) `div` 8000) with 0 by reflexivity.
           apply Z.div_unique with (r := Z.of_nat (length text) - i - 1); lia.
      * destruct j as [|j]; simpl in H; simplify_eq; [lia|].
        apply Hall in H. lia.
      * destruct j as [|j]; simpl in H; simplify_eq; [lia|].
        apply Hall in H. lia.
      * destruct j as [|j]; simpl in *; simplify_eq.
        -- intros Hj. rewrite Hc.
           assert (0 < len new) by (unfold len; lia).
           rewrite Hlen in H.
           destruct (Z.max_spec 0 (len text - (i + 8000))) as [[? Hm]|[? Hm]];
             rewrite Hm in H; [lia|].
           rewrite Z.div_small in H by lia. lia.
        -- intros Hj. apply Hall in H. apply H. lia.
    + exists []. rewrite app_nil_r. split; [done|].
      rewrite drop_ge by (unfold len in *; lia).
      repeat split; try done.
      rewrite Z.max_l by lia. reflexivity.
Qed.

Lemma chunker_spec (text : jsstring) : chunks_from text 0 (chunker text).
Proof.
  destruct (chunk_loop_spec text (length text) 0 []) as (new & Heq & Hnew).
  - lia.
  - unfold len. lia.
  - unfold chunker. rewrite Heq. exact Hnew.
Qed.

(** More iterations than the text has code units change nothing: the
    loop always leaves through its condition. *)
Lemma chunk_loop_fuel (text : jsstring) (fuel : nat) :
  forall (i : Z) (acc : list jsstring),
    0 <= i -> len text - i <= Z.of_nat fuel ->
    chunk_loop (S fuel) text i acc = chunk_loop fuel text i acc.
Proof.
  induction fuel as [|fuel IH]; intros i acc Hi Hfuel.
  - simpl. destruct (Z.ltb_spec i (len text)); [lia|done].
  - change (chunk_loop (S (S fuel)) text i acc)
      with (if i <? len text
            then chunk_loop (S fuel) text (i + CHUNK_LEN)
                   (acc ++ [slice text i (i + CHUNK_LEN)])
            else acc).
    simpl. destruct (Z.ltb_spec i (len text)); [|done].
    apply IH; unfold CHUNK_LEN; lia.
Qed.

Lemma chunker_fuel_enough (text : jsstring) (extra : nat) :
  chunk_loop (length text + extra) text 0 [] = chunker text.
Proof.
  induction extra as [|extra IH].
  - by rewrite Nat.add_0_r.
  - rewrite Nat.add_succ_r, chunk_loop_fuel; [done|lia|unfold len; lia].
Qed.

(** ** Little-endian fields and the header of [saveWav] *)

Lemma Z_of_byte_of_Z (z : Z) : Z_of_byte (byte_of_Z z) = z mod 256.
Proof.
  unfold Z_of_byte, byte_of_Z.
  assert (Hr : 0 <= z mod 256 < 256) by (apply Z.mod_pos_bound; lia).
  destruct (Byte.of_N (Z.to_N (z mod 256))) as [b|] eqn:E; simpl.
  - apply Byte.to_of_N in E. rewrite E. lia.
  - apply Byte.of_N_None_iff in E. lia.
Qed.

Lemma le_value_le_bytes (n : nat) :
  forall v : Z, 0 <= v < 2 ^ (8 * Z.of_nat n) -> le_value (le_bytes n v) = v.
Proof.
  induction n as [|n IH]; intros v Hv.
  - simpl in *. lia.
  - cbn [le_bytes le_value].
    rewrite Z_of_byte_of_Z, Z.shiftr_div_pow2 by lia.
    change 255 with (Z.ones 8). rewrite Z.land_ones by lia.
    change (2 ^ 8) with 256.
    rewrite Z.mod_mod by lia.
    rewrite IH.
    + pose proof (Z.div_mod v 256). lia.
    + replace (8 * Z.of_nat (S n)) with (8 + 8 * Z.of_nat n) in Hv by lia.
      rewrite Z.pow_add_r in Hv by lia. change (2 ^ 8) with 256 in Hv.
      split; [apply Z.div_pos; lia|].
      apply Z.div_lt_upper_bound; lia.
Qed.

Lemma length_le_bytes (n : nat) (v : Z) : length (le_bytes n v) = n.
Proof. revert v. induction n; intros; simpl; auto. Qed.

(** The header is built when the sizes fit 32 bits, and is
    [riff_header]; otherwise the first size written throws. *)
Lemma wav_header_ok (D : Z) :
  0 <= D -> 36 + D <= 2 ^ 32 - 1 ->
  Gemini.wav_header D 24000 = inr (riff_header D).
Proof.
  intros H0 Hmax. unfold Gemini.wav_header, writeUInt32LE, writeUInt16LE, writeUIntLE.
  change (2 ^ (8 * Z.of_nat 4) - 1) with 4294967295 in *.
  change (2 ^ 32 - 1) with 4294967295 in *.
  destruct (Z.ltb_spec (36 + D) 0); [lia|].
  destruct (Z.ltb_spec 4294967295 (36 + D)); [lia|].
  destruct (Z.ltb_spec D 0); [lia|].
  destruct (Z.ltb_spec 4294967295 D); [lia|].
  reflexivity.
Qed.

Lemma wav_header_overflow (D : Z) :
  2 ^ 32 - 1 < 36 + D -> Gemini.wav_header D 24000 = inl RangeError.
Proof.
  intros Hmax. unfold Gemini.wav_header, writeUInt32LE, writeUInt16LE, writeUIntLE.
  change (2 ^ (8 * Z.of_nat 4) - 1) with 4294967295 in *.
  change (2 ^ 32 - 1) with 4294967295 in *.
  destruct (Z.ltb_spec (36 + D) 0); [lia|].
  destruct (Z.ltb_spec 4294967295 (36 + D)); [|lia].
  reflexivity.
Qed.

(** ** The synthesis loop and the runs of src/tts.js *)

(** The loop does what [synth_outcome] says, to a stream that is open. *)
Lemma synthesis_spec (w : world) (out : jsstring) (n : nat)
    (rest : list jsstring) :
  forall (i : nat) (s : state) (b : buffer),
    fs s !! out = Some b ->
    Tts.synthesis w out n i rest s =
      let '(bs, evs, err) := synth_outcome w out n i rest in
      (thrown err,
       {| fs := <[out := b ++ concat bs]> (fs s);
          trace := trace s ++ evs |}).
Proof.
  induction rest as [|chunk rest IH]; intros i s b Hb.
  - simpl. rewrite !app_nil_r, insert_id by done. by destruct s.
  - cbn [Tts.synthesis synth_outcome].
    unfold mbind, M_bind, console_log, emit, await, lift at 1.
    cbn [fs trace].
    destruct (w_speech w i (Tts.params_of w chunk)) as [e|buf].
    + simpl. rewrite !app_nil_r, insert_id by done.
      by rewrite <- app_assoc.
    + cbn [fs trace].
      specialize (IH (S i)).
      destruct (synth_outcome w out n (S i) rest) as [[bs evs] err].
      unfold piece.
      destruct (decide (i = 0%nat)).
      * unfold stream_write, mbind, M_bind, emit, update_fs. cbn [fs trace].
        rewrite Hb. cbn [default from_option].
        erewrite IH by (cbn [fs]; apply lookup_insert_eq).
        cbn [fs trace]. rewrite insert_insert_eq.
        simpl concat. rewrite <- !app_assoc. reflexivity.
      * unfold stream_write, mbind, M_bind, emit, update_fs. cbn [fs trace].
        rewrite Hb. cbn [default from_option].
        erewrite IH by (cbn [fs]; apply lookup_insert_eq).
        cbn [fs trace]. rewrite insert_insert_eq.
        simpl concat. rewrite <- !app_assoc. reflexivity.
Qed.

(** One step of a run: the operations of the process unfolded. *)
Ltac run_step :=
  unfold mbind, mret, M_bind, M_ret, when, console_error, console_log, emit,
    process_exit, fs_existsSync, fs_readFileSync, fs_mkdirSync,
    fs_createWriteStream, fs_unlinkSync, stream_end, update_fs, lift;
  cbn [fs trace negb orb andb default from_option id].

Ltac run_steps := repeat (progress run_step).

Lemma truthy_Some (s : jsstring) : truthy (Some s) = true -> s <> [].
Proof. by destruct s. Qed.

Section Tts_runs.
Context `{Platform}.
Variable w : world.

Lemma tts_no_credential :
  truthy (w_env w !! "OPENAI_API_KEY") = false ->
  Tts.run w =
    (Exit 1, {| fs := w_fs w;
                trace := [Stderr (MissingCredential "OPENAI_API_KEY")] |}).
Proof.
  intros Hkey. unfold Tts.run, Tts.main, start. rewrite Hkey.
  run_steps. reflexivity.
Qed.

Lemma tts_empty_input inFile outFile raw :
  invocation "OPENAI_API_KEY" w inFile outFile raw ->
  trim raw = [] ->
  Tts.run w =
    (Exit 1, {| fs := w_fs w;
                trace := [FsExists (resolve inFile); FsRead (resolve inFile);
                          Stderr EmptyInput] |}).
Proof.
  intros (Hkey & Hin & Tin & Hout & Tout & bytes & Hfile & Hraw) Htrim.
  unfold Tts.run, Tts.main, start. rewrite Hkey, Hin, Hout, Tin, Tout.
  run_steps. rewrite Hfile.
  rewrite bool_decide_eq_true_2 by eauto.
  run_steps. rewrite Hfile, Hraw, Htrim. reflexivity.
Qed.

(** A run that gets past the checks ends as [tts_outcome] says. *)
Lemma tts_run inFile outFile raw :
  invocation "OPENAI_API_KEY" w inFile outFile raw ->
  trim raw <> [] ->
  Tts.run w = tts_outcome w inFile outFile (trim raw).
Proof.
  intros (Hkey & Hin & Tin & Hout & Tout & bytes & Hfile & Hraw) Htrim.
  unfold Tts.run, Tts.main, start, tts_outcome.
  rewrite Hkey, Hin, Hout, Tin, Tout.
  run_steps. rewrite Hfile.
  rewrite bool_decide_eq_true_2 by eauto.
  run_steps. rewrite Hfile, Hraw.
  destruct (trim raw) as [|c text] eqn:Etext; [done|].
  cbn [truthy negb].
  unfold try_catch_finally, try_catch.
  erewrite synthesis_spec by (cbn [fs]; apply lookup_insert_eq).
  destruct (synth_outcome _ _ _ _ _) as [[bs evs] [e|]]; cbn [thrown fs trace].
  - run_steps. rewrite lookup_insert_eq.
    rewrite bool_decide_eq_true_2 by eauto.
    run_steps.
    rewrite insert_insert_eq, delete_insert_eq.
    simpl. rewrite <- !app_assoc. reflexivity.
  - run_steps. rewrite insert_insert_eq.
    simpl. rewrite <- !app_assoc. reflexivity.
Qed.
End Tts_runs.

(** ** The runs of src/tts-gemini.js *)

Ltac gemini_step :=
  unfold Gemini.saveWav, fs_writeFileSync, try_catch, await, Gemini.API_KEY;
  run_step.

Section Gemini_runs.
Context `{Platform}.
Variable w : world.

Lemma gemini_no_credential :
  truthy (w_env w !! "GEMINI_API_KEY") = false ->
  Gemini.run w =
    (Exit 1, {| fs := w_fs w;
                trace := [Stderr (MissingCredential "GEMINI_API_KEY")] |}).
Proof.
  intros Hkey. unfold Gemini.run, Gemini.script, start, Gemini.API_KEY.
  rewrite Hkey. run_steps. reflexivity.
Qed.

Lemma gemini_empty_input inFile outFile raw :
  invocation "GEMINI_API_KEY" w inFile outFile raw ->
  trim raw = [] ->
  Gemini.run w =
    (Exit 1, {| fs := w_fs w;
                trace := [FsExists (resolve inFile); FsRead (resolve inFile);
                          Stderr EmptyInput] |}).
Proof.
  intros (Hkey & Hin & Tin & Hout & Tout & bytes & Hfile & Hraw) Htrim.
  unfold Gemini.run, Gemini.script, start, Gemini.API_KEY.
  rewrite Hkey, Hin, Hout, Tin, Tout.
  run_steps. rewrite Hfile.
  rewrite bool_decide_eq_true_2 by eauto.
  run_steps. rewrite Hfile, Hraw, Htrim. reflexivity.
Qed.

(** A run that gets past the checks ends as [gemini_outcome] says. *)
Lemma gemini_run inFile outFile raw :
  invocation "GEMINI_API_KEY" w inFile outFile raw ->
  trim raw <> [] ->
  Gemini.run w = gemini_outcome w inFile outFile (trim raw).
Proof.
  intros (Hkey & Hin & Tin & Hout & Tout & bytes & Hfile & Hraw) Htrim.
  unfold Gemini.run, Gemini.script, start, Gemini.API_KEY, gemini_outcome.
  rewrite Hkey, Hin, Hout, Tin, Tout.
  run_steps. rewrite Hfile.
  rewrite bool_decide_eq_true_2 by eauto.
  run_steps. rewrite Hfile, Hraw.
  destruct (trim raw) as [|c0 text] eqn:Etext; [done|].
  cbn [truthy negb].
  repeat (progress gemini_step).
  fold (gemini_params w (c0 :: text)).
  destruct (w_generate w _) as [e|reply]; [reflexivity|].
  run_steps.
  destruct (Gemini.audio_of reply) as [[|c b64]|]; cbn [truthy negb];
    [reflexivity| |reflexivity].
  run_steps.
  destruct (Gemini.wav_header _ _) as [e|header]; [reflexivity|].
  destruct (w_write_fault w) as [k|].
  - case_bool_decide; run_steps; simpl; rewrite <- ?app_assoc; reflexivity.
  - run_steps. simpl. reflexivity.
Qed.
End Gemini_runs.

(** ** What the loop asks and writes *)

Lemma requests_app (a b : list event) :
  requests (a ++ b) = requests a ++ requests b.
Proof. apply omap_app. Qed.

Lemma errors_app (a b : list event) :
  errors (a ++ b) = errors a ++ errors b.
Proof. apply omap_app. Qed.

(** Answered calls: every piece is written and nothing is thrown. *)
Lemma answers_outcome (w : world) (out : jsstring) (n : nat) :
  forall rest i rs,
    answers w i rest rs ->
    exists evs, synth_outcome w out n i rest = (pieces i rs, evs, None).
Proof.
  intros rest i rs Hans. induction Hans as [i|i chunk rest r rs Hr _ [evs IH]].
  - by eexists.
  - cbn [synth_outcome pieces]. rewrite Hr, IH. by eexists.
Qed.

(** A rejected call: the loop stops at an exception, at the first one. *)
Lemma rejected_outcome (w : world) (out : jsstring) (n : nat) :
  forall rest i,
    rejected w i rest ->
    exists bs evs e, synth_outcome w out n i rest = (bs, evs, Some e).
Proof.
  induction rest as [|chunk rest IH]; intros i (j & c & e & Hj & He).
  - done.
  - cbn [synth_outcome].
    destruct (w_speech w i (Tts.params_of w chunk)) as [e'|buf] eqn:Hcall.
    + by do 3 eexists.
    + destruct j as [|j].
      * simpl in Hj. simplify_eq. rewrite Nat.add_0_r in He. congruence.
      * destruct (IH (S i)) as (bs & evs & e' & ->).
        { exists j, c, e. split; [done|].
          by replace (S i + j)%nat with (i + S j)%nat by lia. }
        by do 3 eexists.
Qed.

(** Every request of the loop is the [params] of one of the chunks. *)
Lemma outcome_requests (w : world) (out : jsstring) (n : nat) :
  forall rest i r,
    r ∈ requests (synth_outcome w out n i rest).1.2 ->
    exists chunk, chunk ∈ rest /\ r = SpeechCreate (Tts.params_of w chunk).
Proof.
  induction rest as [|chunk rest IH]; intros i r; cbn [synth_outcome].
  - simpl. by intros ?%elem_of_nil.
  - destruct (w_speech w i (Tts.params_of w chunk)) as [e|buf].
    + simpl. intros ->%list_elem_of_singleton.
      exists chunk. split; [left|done].
    + specialize (IH (S i) r).
      destruct (synth_outcome w out n (S i) rest) as [[bs evs] err].
      simpl in *. intros [->|Hr]%elem_of_cons.
      * exists chunk. split; [left|done].
      * destruct (IH Hr) as (c & Hc & ->). exists c. split; [by right|done].
Qed.

Lemma pieces_later (i : nat) (rs : list buffer) :
  (0 < i)%nat -> pieces i rs = map (drop 44) rs.
Proof.
  revert i. induction rs as [|r rs IH]; intros i Hi; [done|].
  cbn [pieces map]. rewrite IH by lia. f_equal.
  unfold piece. destruct (decide (i = 0%nat)); [lia|].
  by rewrite slice_from_drop.
Qed.

Lemma pieces_first (r : buffer) (rs : list buffer) :
  concat (pieces 0 (r :: rs)) = r ++ concat (map (drop 44) rs).
Proof. cbn [pieces]. by rewrite pieces_later by lia. Qed.

Lemma chunker_nonempty (text : jsstring) : text <> [] -> chunker text <> [].
Proof.
  intros Htext Hnil.
  destruct (chunker_spec text) as (Hcat & _). rewrite Hnil in Hcat.
  simpl in Hcat. by rewrite drop_0 in Hcat.
Qed.

(** ** The checks before the synthesis *)

Section Early_exits.
Context `{Platform}.
Variable w : world.

Lemma tts_usage :
  truthy (w_env w !! "OPENAI_API_KEY") = true ->
  truthy (w_argv w !! 2%nat) && truthy (w_argv w !! 3%nat) = false ->
  Tts.run w = (Exit 1, {| fs := w_fs w; trace := [Stderr Usage] |}).
Proof.
  intros Hkey Hargs. unfold Tts.run, Tts.main, start. rewrite Hkey.
  destruct (truthy (w_argv w !! 2%nat)), (truthy (w_argv w !! 3%nat));
    try done; run_steps; reflexivity.
Qed.

Lemma tts_not_found inFile outFile :
  truthy (w_env w !! "OPENAI_API_KEY") = true ->
  w_argv w !! 2%nat = Some inFile -> truthy (Some inFile) = true ->
  w_argv w !! 3%nat = Some outFile -> truthy (Some outFile) = true ->
  w_fs w !! resolve inFile = None ->
  Tts.run w =
    (Exit 1, {| fs := w_fs w;
                trace := [FsExists (resolve inFile);
                          Stderr (FileNotFound (resolve inFile))] |}).
Proof.
  intros Hkey Hin Tin Hout Tout Hfile.
  unfold Tts.run, Tts.main, start. rewrite Hkey, Hin, Hout, Tin, Tout.
  run_steps. rewrite Hfile.
  rewrite bool_decide_eq_false_2 by (by intros [? ?]).
  run_steps. reflexivity.
Qed.

Lemma gemini_usage :
  truthy (w_env w !! "GEMINI_API_KEY") = true ->
  truthy (w_argv w !! 2%nat) && truthy (w_argv w !! 3%nat) = false ->
  Gemini.run w = (Exit 1, {| fs := w_fs w; trace := [Stderr Usage] |}).
Proof.
  intros Hkey Hargs. unfold Gemini.run, Gemini.script, start, Gemini.API_KEY.
  rewrite Hkey.
  destruct (truthy (w_argv w !! 2%nat)), (truthy (w_argv w !! 3%nat));
    try done; run_steps; reflexivity.
Qed.

Lemma gemini_not_found inFile outFile :
  truthy (w_env w !! "GEMINI_API_KEY") = true ->
  w_argv w !! 2%nat = Some inFile -> truthy (Some inFile) = true ->
  w_argv w !! 3%nat = Some outFile -> truthy (Some outFile) = true ->
  w_fs w !! resolve inFile = None ->
  Gemini.run w =
    (Exit 1, {| fs := w_fs w;
                trace := [FsExists (resolve inFile);
                          Stderr (FileNotFound (resolve inFile))] |}).
Proof.
  intros Hkey Hin Tin Hout Tout Hfile.
  unfold Gemini.run, Gemini.script, start, Gemini.API_KEY.
  rewrite Hkey, Hin, Hout, Tin, Tout.
  run_steps. rewrite Hfile.
  rewrite bool_decide_eq_false_2 by (by intros [? ?]).
  run_steps. reflexivity.
Qed.

(** A run either ends in one of the checks, with nothing asked of the
    provider and nothing written, or it is an invocation that gets to
    the synthesis. *)
Lemma checks_or_invocation (key : string) (run : result unit * state) :
  (truthy (w_env w !! key) = false ->
   run = (Exit 1, {| fs := w_fs w;
                     trace := [Stderr (MissingCredential key)] |})) ->
  (truthy (w_env w !! key) = true ->
   truthy (w_argv w !! 2%nat) && truthy (w_argv w !! 3%nat) = false ->
   run = (Exit 1, {| fs := w_fs w; trace := [Stderr Usage] |})) ->
  (forall inFile outFile,
     truthy (w_env w !! key) = true ->
     w_argv w !! 2%nat = Some inFile -> truthy (Some inFile) = true ->
     w_argv w !! 3%nat = Some outFile -> truthy (Some outFile) = true ->
     w_fs w !! resolve inFile = None ->
     run = (Exit 1, {| fs := w_fs w;
                       trace := [FsExists (resolve inFile);
                                 Stderr (FileNotFound (resolve inFile))] |})) ->
  (forall inFile outFile raw,
     invocation key w inFile outFile raw -> trim raw = [] ->
     run = (Exit 1, {| fs := w_fs w;
                       trace := [FsExists (resolve inFile);
                                 FsRead (resolve inFile);
                                 Stderr EmptyInput] |})) ->
  (exists t, run = (Exit 1, {| fs := w_fs w; trace := t |})
             /\ requests t = [])
  \/ (exists inFile outFile raw,
        invocation key w inFile outFile raw /\ trim raw <> []
        /\ w_argv w !! 3%nat = Some outFile).
Proof.
  intros Hcred Huse Hmiss Hempty.
  destruct (truthy (w_env w !! key)) eqn:Hkey;
    [|left; eexists; split; [by apply Hcred|done]].
  destruct (truthy (w_argv w !! 2%nat) && truthy (w_argv w !! 3%nat))
    eqn:Hargs; [|left; eexists; split; [by apply Huse|done]].
  apply andb_true_iff in Hargs as [Tin Tout].
  destruct (w_argv w !! 2%nat) as [inFile|] eqn:Hin; [|done].
  destruct (w_argv w !! 3%nat) as [outFile|] eqn:Hout; [|done].
  destruct (w_fs w !! resolve inFile) as [bytes|] eqn:Hfile;
    [|left; eexists; split; [by eapply Hmiss|done]].
  assert (invocation key w inFile outFile (utf8_decode bytes)) as Hinv.
  { unfold invocation. rewrite Hin, Hout. repeat split; try done. eauto. }
  destruct (decide (trim (utf8_decode bytes) = [])) as [Htrim|Htrim].
  - left. eexists. split; [by eapply Hempty|done].
  - right. by exists inFile, outFile, (utf8_decode bytes).
Qed.
End Early_exits.

(** ** Assembly of the chunked responses *)

(** When every call is answered the run succeeds and the output file
    holds the pieces, in order. *)
Lemma tts_assembled `{Platform} (w : world) inFile outFile raw responses :
  invocation "OPENAI_API_KEY" w inFile outFile raw ->
  trim raw <> [] ->
  answers w 0 (chunker (trim raw)) responses ->
  exists s, Tts.run w = (Val tt, s)
            /\ fs s !! resolve outFile = Some (concat (pieces 0 responses)).
Proof.
  intros Hinv Htext Hans.
  rewrite (tts_run w _ _ _ Hinv Htext). unfold tts_outcome.
  destruct (answers_outcome w (resolve outFile)
              (length (chunker (trim raw))) _ _ _ Hans) as [evs ->].
  eexists. split; [reflexivity|]. cbn [fs]. apply lookup_insert_eq.
Qed.

Lemma answers_nonempty (w : world) (i : nat) rest responses :
  answers w i rest responses -> rest <> [] ->
  exists first others, responses = first :: others.
Proof. intros [] ?; [done|eauto]. Qed.

(** A field that lies within [a] reads the same with [b] appended. *)
Lemma readUIntLE_app (n : nat) (a b : buffer) (offset : Z) :
  0 <= offset -> offset + Z.of_nat n <= len a ->
  readUIntLE n (a ++ b) offset = readUIntLE n a offset.
Proof.
  intros Ho Hin. unfold readUIntLE, len in *. rewrite length_app.
  destruct (Z.ltb_spec offset 0); [lia|]. cbn [orb].
  destruct (Z.ltb_spec (Z.of_nat (length a + length b)) (offset + Z.of_nat n));
    [lia|].
  destruct (Z.ltb_spec (Z.of_nat (length a)) (offset + Z.of_nat n)); [lia|].
  do 2 f_equal. rewrite drop_app_le by lia.
  rewrite take_app_le; [done|]. rewrite length_drop. lia.
Qed.

Lemma concat_map_app_drop (header : buffer) (payloads : list buffer) :
  concat (map (drop (length header)) (map (app header) payloads))
  = concat payloads.
Proof.
  induction payloads as [|p ps IH]; [done|].
  cbn [map concat]. rewrite IH. f_equal.
  by rewrite drop_app_length.
Qed.

Lemma len_concat (ps : list buffer) : len (concat ps) = sum_len ps.
Proof.
  induction ps as [|p ps IH]; [done|].
  cbn [concat sum_len fold_right]. fold (sum_len ps). rewrite <- IH.
  unfold len. rewrite length_app. lia.
Qed.

(** C2 (Variant A assembly byte layout): when the N >= 1 requests of a
    run are answered by [responses], the output file holds the first
    response in full, followed in order by every later response without
    its first 44 bytes; for two responses of 44 + 100 and 44 + 50 bytes
    it is 44 + 100 + 50 bytes long. *)
Theorem assembly_byte_layout `{Platform} (w : world)
    (inFile outFile raw : jsstring) (responses : list buffer) :
  invocation "OPENAI_API_KEY" w inFile outFile raw ->
  trim raw <> [] ->
  answers w 0 (chunker (trim raw)) responses ->
  exists first others s,
    responses = first :: others
    /\ Tts.run w = (Val tt, s)
    /\ fs s !! resolve outFile
       = Some (first ++ concat (map (drop 44) others))
    /\ (forall second,
          others = [second] ->
          length first = (44 + 100)%nat -> length second = (44 + 50)%nat ->
          length (first ++ concat (map (drop 44) others))
          = (44 + 100 + 50)%nat).
Proof.
  intros Hinv Htext Hans.
  destruct (answers_nonempty _ _ _ _ Hans (chunker_nonempty _ Htext))
    as (first & others & ->).
  destruct (tts_assembled w _ _ _ _ Hinv Htext Hans) as (s & Hrun & Hfile).
  exists first, others, s. rewrite pieces_first in Hfile.
  repeat split; try done.
  intros second -> H1 H2. cbn [map concat].
  rewrite !length_app, length_drop, H1, H2. reflexivity.
Qed.

(** The example surroundings make an invocation once the credential is
    set. *)
Lemma example_invocation (key : string) env text speech generate fault :
  truthy (env !! key) = true ->
  @invocation example_platform key
    (example_world env text speech generate fault)
    (js "/in.txt") (js "/out/speech.wav") (map Byte.to_N text).
Proof.
  intros Hkey. unfold invocation. cbn [w_env w_argv w_fs example_world].
  repeat split; try done.
  exists text. split; [|done]. cbn [resolve example_platform]. 
  apply lookup_singleton_eq.
Qed.

Lemma long_text_chunks :
  chunker (trim (map Byte.to_N long_text))
  = [repeat 0x61%N (Z.to_nat 8000); repeat 0x61%N 3].
Proof. vm_compute. reflexivity. Qed.

Lemma assembly_byte_layout_witness :
  exists s,
    run_openai two_chunk_world = (Val tt, s)
    /\ fs s !! js "/out/speech.wav"
       = Some (riff_header 100 ++ payload 100 "x" ++ payload 50 "y").
Proof.
  destruct (assembly_byte_layout (H := example_platform) two_chunk_world
              (js "/in.txt") (js "/out/speech.wav")
              (map Byte.to_N long_text)
              [riff_header 100 ++ payload 100 "x";
               riff_header 50 ++ payload 50 "y"])
    as (first & others & s & Heq & Hrun & Hfile & _).
  - apply example_invocation. reflexivity.
  - vm_compute. discriminate.
  - rewrite long_text_chunks. repeat constructor.
  - exists s. split; [exact Hrun|]. injection Heq as <- <-. exact Hfile.
Defined.

(** C1, as amended (Variant A assembly, header fields): when the N >= 1
    responses share one 44-byte header and carry the payloads P1..PN, the
    output file is that header followed by P1..PN, so its payload is
    |P1| + ... + |PN| bytes long, and its data-size field (offset 40) and
    total-size field (offset 4) are those of the header as the responses
    carry it: they are copied, not recomputed. *)
Theorem assembled_header_fields `{Platform} (w : world)
    (inFile outFile raw : jsstring) (header : buffer)
    (payloads : list buffer) :
  invocation "OPENAI_API_KEY" w inFile outFile raw ->
  trim raw <> [] ->
  length header = 44%nat ->
  answers w 0 (chunker (trim raw)) (map (app header) payloads) ->
  exists s,
    Tts.run w = (Val tt, s)
    /\ fs s !! resolve outFile = Some (header ++ concat payloads)
    /\ len (header ++ concat payloads) - 44 = sum_len payloads
    /\ readUInt32LE (header ++ concat payloads) 40 = readUInt32LE header 40
    /\ readUInt32LE (header ++ concat payloads) 4 = readUInt32LE header 4.
Proof.
  intros Hinv Htext Hlen Hans.
  destruct (tts_assembled w _ _ _ _ Hinv Htext Hans) as (s & Hrun & Hfile).
  destruct (answers_nonempty _ _ _ _ Hans (chunker_nonempty _ Htext))
    as (first & others & Heq).
  destruct payloads as [|p ps]; [done|]. cbn [map] in *.
  rewrite pieces_first in Hfile.
  replace 44%nat with (length header) in Hfile by done.
  rewrite concat_map_app_drop, <- app_assoc in Hfile.
  exists s. repeat split; try done.
  - rewrite <- len_concat. unfold len. rewrite length_app. lia.
  - apply readUIntLE_app; unfold len; lia.
  - apply readUIntLE_app; unfold len; lia.
Qed.

Lemma same_header_answers :
  answers same_header_world 0
    (chunker (trim (map Byte.to_N long_text)))
    (map (app (riff_header 2)) [payload 2 "x"; payload 2 "y"]).
Proof. rewrite long_text_chunks. repeat constructor. Qed.

Lemma assembled_header_fields_witness :
  exists s,
    run_openai same_header_world = (Val tt, s)
    /\ fs s !! js "/out/speech.wav"
       = Some (riff_header 2 ++ payload 2 "x" ++ payload 2 "y").
Proof.
  destruct (assembled_header_fields (H := example_platform) same_header_world
              (js "/in.txt") (js "/out/speech.wav")
              (map Byte.to_N long_text) (riff_header 2)
              [payload 2 "x"; payload 2 "y"])
    as (s & Hrun & Hfile & _).
  - apply example_invocation. reflexivity.
  - vm_compute. discriminate.
  - reflexivity.
  - exact same_header_answers.
  - exists s. split; [exact Hrun|exact Hfile].
Defined.

(** C1 as stated fails: two responses that are valid containers with the
    same header, each declaring its own two payload bytes, are assembled
    into a file of four payload bytes whose data-size field still says 2
    and whose total-size field still says 36 + 2. *)
Lemma assembled_data_size_is_stale :
  exists s file,
    run_openai same_header_world = (Val tt, s)
    /\ fs s !! js "/out/speech.wav" = Some file
    /\ file = riff_header 2 ++ payload 2 "x" ++ payload 2 "y"
    /\ len (payload 2 "x") + len (payload 2 "y") = 4
    /\ readUInt32LE file 40 = Some 2
    /\ readUInt32LE file 4 = Some 38
    /\ readUInt32LE file 40 <> Some (len (payload 2 "x") + len (payload 2 "y")).
Proof.
  do 2 eexists. split; [vm_compute; reflexivity|].
  split; [vm_compute; reflexivity|].
  repeat split; try (vm_compute; reflexivity). vm_compute. discriminate.
Qed.

(** C9 (header stripping is total): slicing a buffer shorter than 44
    bytes from offset 44 gives the empty buffer, and a run whose requests
    are all answered succeeds whatever the lengths of the responses: the
    output file is the first response followed by the later ones past
    their offset 44, nothing at all for a later response shorter than
    that. *)
Theorem short_response_strips_to_nothing `{Platform} (w : world)
    (inFile outFile raw : jsstring) (first : buffer)
    (others : list buffer) :
  invocation "OPENAI_API_KEY" w inFile outFile raw ->
  trim raw <> [] ->
  answers w 0 (chunker (trim raw)) (first :: others) ->
  (forall buf : buffer,
     len buf < Tts.HEADER_BYTES -> slice_from buf Tts.HEADER_BYTES = [])
  /\ exists s,
       Tts.run w = (Val tt, s)
       /\ fs s !! resolve outFile
          = Some (first
                  ++ concat (map (fun r : buffer =>
                                    if len r <? 44 then []
                                    else slice_from r Tts.HEADER_BYTES)
                               others)).
Proof.
  intros Hinv Htext Hans.
  assert (Hshort : forall buf : buffer,
            len buf < Tts.HEADER_BYTES -> slice_from buf Tts.HEADER_BYTES = []).
  { intros buf Hbuf. unfold Tts.HEADER_BYTES in *.
    rewrite slice_from_drop by lia. apply drop_ge. unfold len in Hbuf. lia. }
  split; [exact Hshort|].
  destruct (tts_assembled w _ _ _ _ Hinv Htext Hans) as (s & Hrun & Hfile).
  exists s. split; [done|]. rewrite Hfile, pieces_first. do 3 f_equal.
  apply map_ext. intros r. destruct (Z.ltb_spec (len r) 44) as [Hr|Hr].
  - rewrite <- (Hshort r Hr). unfold Tts.HEADER_BYTES. by rewrite slice_from_drop.
  - unfold Tts.HEADER_BYTES. by rewrite slice_from_drop.
Qed.

Lemma short_response_strips_to_nothing_witness :
  exists s,
    run_openai short_response_world = (Val tt, s)
    /\ fs s !! js "/out/speech.wav"
       = Some (riff_header 100 ++ payload 100 "x").
Proof.
  destruct (short_response_strips_to_nothing (H := example_platform)
              short_response_world (js "/in.txt") (js "/out/speech.wav")
              (map Byte.to_N long_text)
              (riff_header 100 ++ payload 100 "x") [payload 10 "y"])
    as (_ & s & Hrun & Hfile).
  - apply example_invocation. reflexivity.
  - vm_compute. discriminate.
  - rewrite long_text_chunks. repeat constructor.
  - exists s. split; [exact Hrun|]. exact Hfile.
Defined.

(** ** The chunks of a text *)

Lemma chunks_single (text : jsstring) (chunks : list jsstring) :
  len chunks = 1 -> concat chunks = text -> chunks = [text].
Proof.
  destruct chunks as [|c [|c' chunks]]; unfold len; simpl; try lia.
  rewrite app_nil_r. by intros _ ->.
Qed.

(** C5 (chunker correctness): for every input text of length L that
    [main] hands to the chunker, which is the trimmed text and is never
    empty ([main] exits on an empty one before it chunks): if L <= 8000
    the chunker yields exactly one chunk, equal to the input; if
    L > 8000 it yields ceil(L / 8000) chunks; every chunk but the last
    has length exactly 8000 and the last has between 1 and 8000 code
    units; and the chunks concatenated in order are the input text. *)
Theorem chunker_correct (text : jsstring) :
  text <> [] ->
  (len text <= 8000 -> chunker text = [text])
  /\ (8000 < len text ->
        len (chunker text) = (len text + 7999) / 8000
        /\ 8000 * (len (chunker text) - 1) < len text
           <= 8000 * len (chunker text))
  /\ (forall j c,
        chunker text !! j = Some c -> (S j < length (chunker text))%nat ->
        len c = 8000)
  /\ (forall c, last (chunker text) = Some c -> 1 <= len c <= 8000)
  /\ concat (chunker text) = text.
Proof.
  intros Htext.
  destruct (chunker_spec text) as (Hcat & Hlen & Hall).
  unfold CHUNK_LEN in *. rewrite drop_0 in Hcat.
  assert (0 < len text) as Hpos.
  { destruct text; [done|]. unfold len. simpl. lia. }
  rewrite Z.sub_0_r, Z.max_r in Hlen by lia.
  replace (8000 - 1) with 7999 in Hlen by lia.
  split; [|split; [|split; [|split]]].
  - intros Hle. apply chunks_single; [|done].
    rewrite Hlen. symmetry. apply Z.div_unique with (r := len text - 1); lia.
  - intros Hlong. split; [done|]. rewrite Hlen.
    pose proof (Z.div_mod (len text + 7999) 8000).
    pose proof (Z.mod_pos_bound (len text + 7999) 8000). lia.
  - intros j c Hj Hlast. by apply (Hall j c Hj).
  - intros c Hc. rewrite last_lookup in Hc. by apply Hall in Hc as [? ?].
  - done.
Qed.

Lemma chunker_correct_witness :
  chunker (js "Hello world.") = [js "Hello world."].
Proof.
  destruct (chunker_correct (js "Hello world.")) as (Hone & _).
  - discriminate.
  - apply Hone. vm_compute. discriminate.
Defined.

(** The loop on the empty text would not run and would yield no chunk;
    [main] never gets there with one. *)
Lemma chunker_of_empty_text :
  len ([] : jsstring) <= 8000
  /\ chunker [] = []
  /\ chunker [] <> [[]].
Proof. repeat split; [vm_compute; discriminate|discriminate]. Qed.

(** ** The file of [saveWav] *)

Lemma length_riff_header (D : Z) : length (riff_header D) = 44%nat.
Proof. reflexivity. Qed.

(** A field of [n] bytes read back where [le_bytes] put it. *)
Lemma readUIntLE_field (n : nat) (file : buffer) (offset v : Z) :
  0 <= offset -> offset + Z.of_nat n <= len file ->
  take n (drop (Z.to_nat offset) file) = le_bytes n v ->
  0 <= v < 2 ^ (8 * Z.of_nat n) ->
  readUIntLE n file offset = Some v.
Proof.
  intros Ho Hin Hbytes Hv. unfold readUIntLE.
  destruct (Z.ltb_spec offset 0); [lia|].
  destruct (Z.ltb_spec (len file) (offset + Z.of_nat n)); [lia|].
  cbn [orb]. by rewrite Hbytes, le_value_le_bytes.
Qed.





(** ** Failing fast *)

(** C6 (empty-input fail-fast): when the content of the input file is
    empty once trimmed (white space only, or nothing), both programs
    report the empty-input error and exit with code 1, and nothing has
    been asked of the provider nor written. *)
Theorem empty_input_fails_fast `{Platform} (w : world)
    (inFile outFile raw : jsstring) :
  trim raw = [] ->
  (invocation "OPENAI_API_KEY" w inFile outFile raw ->
   exists s, Tts.run w = (Exit 1, s)
             /\ errors (trace s) = [EmptyInput]
             /\ requests (trace s) = []
             /\ fs s = w_fs w)
  /\ (invocation "GEMINI_API_KEY" w inFile outFile raw ->
      exists s, Gemini.run w = (Exit 1, s)
                /\ errors (trace s) = [EmptyInput]
                /\ requests (trace s) = []
                /\ fs s = w_fs w).
Proof.
  intros Htrim. split; intros Hinv.
  - rewrite (tts_empty_input w _ _ _ Hinv Htrim). by eexists.
  - rewrite (gemini_empty_input w _ _ _ Hinv Htrim). by eexists.
Qed.

Lemma blank_text_trims_to_nothing : trim (map Byte.to_N blank_text) = [].
Proof. reflexivity. Qed.

Lemma empty_input_fails_fast_witness :
  (exists s, run_openai (example_world openai_env blank_text
                           no_speech no_generate None) = (Exit 1, s)
             /\ requests (trace s) = [])
  /\ (exists s, run_gemini (gemini_world blank_text (inl (ProviderError 0))
                              None) = (Exit 1, s)
                /\ requests (trace s) = []).
Proof.
  split.
  - destruct (empty_input_fails_fast (H := example_platform)
                (example_world openai_env blank_text no_speech no_generate
                   None)
                (js "/in.txt") (js "/out/speech.wav")
                (map Byte.to_N blank_text) blank_text_trims_to_nothing)
      as [Hopenai _].
    destruct Hopenai as (s & Hrun & _ & Hreq & _).
    + apply example_invocation. reflexivity.
    + exists s. split; [exact Hrun|exact Hreq].
  - destruct (empty_input_fails_fast (H := example_platform)
                (gemini_world blank_text (inl (ProviderError 0)) None)
                (js "/in.txt") (js "/out/speech.wav")
                (map Byte.to_N blank_text) blank_text_trims_to_nothing)
      as [_ Hgemini].
    destruct Hgemini as (s & Hrun & _ & Hreq & _).
    + apply example_invocation. reflexivity.
    + exists s. split; [exact Hrun|exact Hreq].
Defined.

(** C7 (no audio returned): in a run of the single-shot program whose
    reply lacks the nested base64 payload (it is absent, or empty), the
    program reports the no-audio error and no other, exits with code 1
    and writes nothing; a rejected request is reported differently, as a
    failed generation. *)
Theorem no_audio_is_its_own_error `{Platform} (w : world)
    (inFile outFile raw : jsstring) :
  invocation "GEMINI_API_KEY" w inFile outFile raw ->
  trim raw <> [] ->
  (forall reply,
     w_generate w (gemini_params w (trim raw)) = inr reply ->
     truthy (Gemini.audio_of reply) = false ->
     exists s, Gemini.run w = (Exit 1, s)
               /\ errors (trace s) = [NoAudioReturned]
               /\ fs s = w_fs w)
  /\ (forall e,
        w_generate w (gemini_params w (trim raw)) = inl e ->
        exists s, Gemini.run w = (Exit 1, s)
                  /\ errors (trace s) = [GenerationFailed e]
                  /\ fs s = w_fs w).
Proof.
  intros Hinv Htext.
  rewrite (gemini_run w _ _ _ Hinv Htext). unfold gemini_outcome.
  split.
  - intros reply -> Haudio.
    destruct (Gemini.audio_of reply) as [[|c b64]|]; try done; by eexists.
  - intros e ->. by eexists.
Qed.

Lemma no_audio_is_its_own_error_witness :
  exists s,
    run_gemini (gemini_world (ascii_bytes "Hello world.")
                  (inr (Some {| candidates := Some [] |})) None)
    = (Exit 1, s)
    /\ errors (trace s) = [NoAudioReturned]
    /\ fs s = w_fs (gemini_world (ascii_bytes "Hello world.")
                      (inr (Some {| candidates := Some [] |})) None).
Proof.
  destruct (no_audio_is_its_own_error (H := example_platform)
              (gemini_world (ascii_bytes "Hello world.")
                 (inr (Some {| candidates := Some [] |})) None)
              (js "/in.txt") (js "/out/speech.wav")
              (map Byte.to_N (ascii_bytes "Hello world.")))
    as [Hnone _].
  - apply example_invocation. reflexivity.
  - vm_compute. discriminate.
  - apply (Hnone (Some {| candidates := Some [] |})); reflexivity.
Defined.

(** C8 (missing-credential fail-fast): when the credential variable is
    absent (or empty), either program writes the missing-credential
    error to the error stream and exits with code 1, and that is all it
    does: the file system is untouched and nothing is read, written or
    asked.  Every other variable, when absent, takes its default: model
    tts-1-hd, voice fable, speed 1.0 and the storyteller instruction for
    the chunked program; model gemini-2.5-flash-preview-tts, voice
    Iapetus and the storyteller style for the single-shot one. *)
Theorem missing_credential_fails_fast `{Platform} (w : world) :
  (truthy (w_env w !! "OPENAI_API_KEY") = false ->
   Tts.run w =
     (Exit 1, {| fs := w_fs w;
                 trace := [Stderr (MissingCredential "OPENAI_API_KEY")] |}))
  /\ (truthy (w_env w !! "GEMINI_API_KEY") = false ->
      Gemini.run w =
        (Exit 1, {| fs := w_fs w;
                    trace := [Stderr (MissingCredential "GEMINI_API_KEY")] |}))
  /\ (w_env w !! "TTS_MODEL" = None -> Tts.MODEL w = js "tts-1-hd")
  /\ (w_env w !! "TTS_VOICE" = None -> Tts.VOICE w = js "fable")
  /\ (w_env w !! "TTS_SPEED" = None -> Tts.SPEED w = Decimal false 10 (-1))
  /\ (w_env w !! "TTS_INSTR" = None ->
      Tts.INSTR w = js "Calm, slightly dramatic storyteller.")
  /\ (w_env w !! "GEMINI_TTS_MODEL" = None ->
      Gemini.MODEL w = js "gemini-2.5-flash-preview-tts")
  /\ (w_env w !! "GEMINI_VOICE" = None -> Gemini.VOICE w = js "Iapetus")
  /\ (w_env w !! "GEMINI_STYLE" = None ->
      Gemini.STYLE w =
        js "Neutral storyteller with a mild British accent and a very slight dramatic tone").
Proof.
  split; [apply tts_no_credential|].
  split; [apply gemini_no_credential|].
  unfold Tts.MODEL, Tts.VOICE, Tts.SPEED, Tts.INSTR,
    Gemini.MODEL, Gemini.VOICE, Gemini.STYLE.
  repeat split; intros ->; reflexivity.
Qed.

Lemma missing_credential_fails_fast_witness :
  run_openai no_key_world =
    (Exit 1, {| fs := w_fs no_key_world;
                trace := [Stderr (MissingCredential "OPENAI_API_KEY")] |})
  /\ run_gemini no_key_world =
       (Exit 1, {| fs := w_fs no_key_world;
                   trace := [Stderr (MissingCredential "GEMINI_API_KEY")] |})
  /\ Tts.SPEED no_key_world = Decimal false 10 (-1).
Proof.
  destruct (missing_credential_fails_fast (H := example_platform) no_key_world)
    as (Hopenai & Hgemini & _ & _ & Hspeed & _).
  split; [apply Hopenai; reflexivity|].
  split; [apply Hgemini; reflexivity|].
  apply Hspeed. reflexivity.
Defined.

(** ** Failed runs, and the speed *)

Lemma tts_checks_or_invocation `{Platform} (w : world) :
  (exists t, Tts.run w = (Exit 1, {| fs := w_fs w; trace := t |})
             /\ requests t = [])
  \/ (exists inFile outFile raw,
        invocation "OPENAI_API_KEY" w inFile outFile raw /\ trim raw <> []
        /\ w_argv w !! 3%nat = Some outFile).
Proof.
  apply checks_or_invocation.
  - apply tts_no_credential.
  - apply tts_usage.
  - intros. by eapply tts_not_found.
  - intros. by eapply tts_empty_input.
Qed.

Lemma gemini_checks_or_invocation `{Platform} (w : world) :
  (exists t, Gemini.run w = (Exit 1, {| fs := w_fs w; trace := t |})
             /\ requests t = [])
  \/ (exists inFile outFile raw,
        invocation "GEMINI_API_KEY" w inFile outFile raw /\ trim raw <> []
        /\ w_argv w !! 3%nat = Some outFile).
Proof.
  apply checks_or_invocation.
  - apply gemini_no_credential.
  - apply gemini_usage.
  - intros. by eapply gemini_not_found.
  - intros. by eapply gemini_empty_input.
Qed.

(** C3 as stated fails for the single-shot program: when the final write
    fails after ten bytes (a full device), the error is reported and the
    process exits with code 1, and the ten bytes, the truncated start of
    a header, stay at the output path. *)
Lemma gemini_leaves_truncated_file :
  let w := gemini_world (ascii_bytes "Hello world.")
             (inr (audio_reply ten_bytes)) (Some 10%nat) in
  exists s,
    run_gemini w = (Exit 1, s)
    /\ errors (trace s) = [GenerationFailed IOError]
    /\ w_fs w !! js "/out/speech.wav" = None
    /\ fs s !! js "/out/speech.wav"
       = Some (take 10 (riff_header 10 ++ map byte_of_Z [0;1;2;3;4;5;6;7;8;9])).
Proof.
  eexists. split; [vm_compute; reflexivity|].
  repeat split; vm_compute; reflexivity.
Qed.


(** ** The end-to-end scenarios *)

(** "Hello world." answered by one container of 44 + 4 bytes: the output
    file is the response, byte for byte. *)
Example hello_world_scenario :
  exists s,
    run_openai (speed_world (js "1.0")) = (Val tt, s)
    /\ fs s !! js "/out/speech.wav" = Some (riff_header 4 ++ payload 4 "x")
    /\ length (requests (trace s)) = 1%nat.
Proof. eexists. repeat split; vm_compute; reflexivity. Qed.

(** Ten bytes of audio from the single-shot provider: a header that
    declares them, and the ten bytes. *)
Example ten_bytes_scenario :
  exists s,
    run_gemini (gemini_world (ascii_bytes "Hello world.")
                  (inr (audio_reply ten_bytes)) None) = (Val tt, s)
    /\ fs s !! js "/out/speech.wav"
       = Some (riff_header 10 ++ map byte_of_Z [0;1;2;3;4;5;6;7;8;9]).
Proof. eexists. repeat split; vm_compute; reflexivity. Qed.

(** * Further properties *)

(** ** The checks of the arguments and of the input file *)

(** An invocation from its parts, on any platform. *)
Lemma invocation_intro `{Platform} (key : string) (w : world)
    (inFile outFile : jsstring) (bytes : buffer) :
  truthy (w_env w !! key) = true ->
  w_argv w !! 2%nat = Some inFile -> truthy (Some inFile) = true ->
  w_argv w !! 3%nat = Some outFile -> truthy (Some outFile) = true ->
  w_fs w !! resolve inFile = Some bytes ->
  invocation key w inFile outFile (utf8_decode bytes).
Proof. intros. unfold invocation. repeat split; try done. eauto. Qed.

(** X1 (missing arguments): when the credential is set and the input or
    the output argument is missing (or empty), either program prints its
    usage text on the error stream and exits with code 1, and that is
    all it does: no file is looked at and nothing is asked. *)
Theorem missing_argument_prints_usage `{Platform} (w : world) :
  truthy (w_argv w !! 2%nat) && truthy (w_argv w !! 3%nat) = false ->
  (truthy (w_env w !! "OPENAI_API_KEY") = true ->
   Tts.run w = (Exit 1, {| fs := w_fs w; trace := [Stderr Usage] |}))
  /\ (truthy (w_env w !! "GEMINI_API_KEY") = true ->
      Gemini.run w = (Exit 1, {| fs := w_fs w; trace := [Stderr Usage] |})).
Proof.
  intros Hargs. split; intros Hkey.
  - by apply tts_usage.
  - by apply gemini_usage.
Qed.

Lemma missing_argument_prints_usage_witness :
  run_openai one_argument_world
  = (Exit 1, {| fs := w_fs one_argument_world; trace := [Stderr Usage] |})
  /\ run_gemini one_argument_world
     = (Exit 1, {| fs := w_fs one_argument_world; trace := [Stderr Usage] |}).
Proof.
  destruct (missing_argument_prints_usage (H := example_platform)
              one_argument_world) as [Hopenai Hgemini].
  - reflexivity.
  - split; [apply Hopenai|apply Hgemini]; reflexivity.
Defined.

(** X2 (input file not found): when the credential and both arguments
    are there and no file is at the resolved input path, either program
    reports the file as not found, naming the resolved path, and exits
    with code 1; it has only looked whether the file exists: nothing is
    read, created or asked. *)
Theorem missing_input_file_is_reported `{Platform} (w : world)
    (inFile outFile : jsstring) :
  w_argv w !! 2%nat = Some inFile -> truthy (Some inFile) = true ->
  w_argv w !! 3%nat = Some outFile -> truthy (Some outFile) = true ->
  w_fs w !! resolve inFile = None ->
  (truthy (w_env w !! "OPENAI_API_KEY") = true ->
   Tts.run w =
     (Exit 1, {| fs := w_fs w;
                 trace := [FsExists (resolve inFile);
                           Stderr (FileNotFound (resolve inFile))] |}))
  /\ (truthy (w_env w !! "GEMINI_API_KEY") = true ->
      Gemini.run w =
        (Exit 1, {| fs := w_fs w;
                    trace := [FsExists (resolve inFile);
                              Stderr (FileNotFound (resolve inFile))] |})).
Proof.
  intros Hin Tin Hout Tout Hfile. split; intros Hkey.
  - by eapply tts_not_found.
  - by eapply gemini_not_found.
Qed.

Lemma missing_input_file_is_reported_witness :
  errors (trace (run_openai missing_file_world).2)
  = [FileNotFound (js "/in.txt")]
  /\ errors (trace (run_gemini missing_file_world).2)
     = [FileNotFound (js "/in.txt")].
Proof.
  destruct (missing_input_file_is_reported (H := example_platform)
              missing_file_world (js "/in.txt") (js "/out/speech.wav"))
    as [Hopenai Hgemini]; try reflexivity.
  unfold run_openai, run_gemini.
  rewrite Hopenai, Hgemini by reflexivity. split; reflexivity.
Defined.

(** ** Empty input, exactly *)

Lemma trim_start_nil (s : jsstring) :
  trim_start s = [] <-> forallb is_white_space s = true.
Proof.
  induction s as [|c s IH]; [done|]. simpl.
  destruct (is_white_space c); [exact IH|]. split; discriminate.
Qed.

Lemma trim_start_head (s : jsstring) (c : N) (t : jsstring) :
  trim_start s = c :: t -> is_white_space c = false.
Proof.
  induction s as [|a s IH]; [done|]. simpl.
  destruct (is_white_space a) eqn:Ha; [exact IH|].
  intros [= <- <-]. exact Ha.
Qed.

Lemma trim_end_head (c : N) (t : jsstring) :
  is_white_space c = false -> trim_end (c :: t) <> [].
Proof.
  intros Hc. simpl. rewrite Hc. by destruct (trim_end t).
Qed.

(** The trimmed string is empty exactly for a string of white space. *)
Lemma trim_nil (s : jsstring) :
  trim s = [] <-> forallb is_white_space s = true.
Proof.
  unfold trim. rewrite <- trim_start_nil.
  destruct (trim_start s) as [|c t] eqn:Hs; [done|].
  split; [|discriminate].
  intros Hend. by apply trim_end_head in Hend; [|eapply trim_start_head].
Qed.

(** The loop writes nothing on the error stream. *)
Lemma synth_outcome_errors (w : world) (out : jsstring) (n : nat) :
  forall rest i, errors (synth_outcome w out n i rest).1.2 = [].
Proof.
  induction rest as [|chunk rest IH]; intros i; cbn [synth_outcome]; [done|].
  destruct (w_speech w i (Tts.params_of w chunk)) as [e|buf]; [done|].
  specialize (IH (S i)).
  by destruct (synth_outcome w out n (S i) rest) as [[bs evs] err].
Qed.

Ltac no_such_error :=
  cbn; let Hin := fresh in
  intros Hin;
  repeat (apply elem_of_cons in Hin as [Hin|Hin]; [discriminate Hin|]);
  by apply elem_of_nil in Hin.

Lemma tts_outcome_errors `{Platform} (w : world) inFile outFile text :
  EmptyInput ∉ errors (trace (tts_outcome w inFile outFile text).2).
Proof.
  unfold tts_outcome.
  pose proof (synth_outcome_errors w (resolve outFile)
                (length (chunker text)) (chunker text) 0) as Hevs.
  destruct (synth_outcome _ _ _ _ _) as [[bs evs] [e|]];
    cbn [fst snd trace] in *;
    rewrite !errors_app, Hevs; no_such_error.
Qed.

Lemma gemini_outcome_errors `{Platform} (w : world) inFile outFile text :
  EmptyInput ∉ errors (trace (gemini_outcome w inFile outFile text).2).
Proof.
  unfold gemini_outcome.
  destruct (w_generate w _) as [e|reply]; [no_such_error|].
  destruct (Gemini.audio_of reply) as [[|c b64]|]; try no_such_error.
  destruct (Gemini.wav_header _ _) as [e|header]; [no_such_error|].
  destruct (w_write_fault w) as [k|]; [case_bool_decide|];
    no_such_error.
Qed.

(** X3 (empty input, exactly): in a run that gets to its input file,
    either program reports the empty-input error if and only if every
    code unit of the file's text is white space (a file of no text at
    all included). *)
Theorem empty_input_is_white_space_only `{Platform} (w : world)
    (inFile outFile raw : jsstring) :
  (invocation "OPENAI_API_KEY" w inFile outFile raw ->
   EmptyInput ∈ errors (trace (Tts.run w).2)
   <-> forallb is_white_space raw = true)
  /\ (invocation "GEMINI_API_KEY" w inFile outFile raw ->
      EmptyInput ∈ errors (trace (Gemini.run w).2)
      <-> forallb is_white_space raw = true).
Proof.
  split; intros Hinv; rewrite <- trim_nil.
  - destruct (decide (trim raw = [])) as [Hnil|Htext].
    + rewrite (tts_empty_input w _ _ _ Hinv Hnil). cbn.
      split; [done|intros _; left].
    + rewrite (tts_run w _ _ _ Hinv Htext).
      split; [|done]. intros Hin. by apply tts_outcome_errors in Hin.
  - destruct (decide (trim raw = [])) as [Hnil|Htext].
    + rewrite (gemini_empty_input w _ _ _ Hinv Hnil). cbn.
      split; [done|intros _; left].
    + rewrite (gemini_run w _ _ _ Hinv Htext).
      split; [|done]. intros Hin. by apply gemini_outcome_errors in Hin.
Qed.

Lemma empty_input_is_white_space_only_witness :
  EmptyInput ∈ errors (trace (run_openai
                  (example_world openai_env blank_text no_speech
                     no_generate None)).2).
Proof.
  destruct (empty_input_is_white_space_only (H := example_platform)
              (example_world openai_env blank_text no_speech no_generate
                 None)
              (js "/in.txt") (js "/out/speech.wav")
              (map Byte.to_N blank_text)) as [Hopenai _].
  apply Hopenai.
  - apply example_invocation. reflexivity.
  - reflexivity.
Defined.

(** ** The requests of the chunked program *)

(** Answered calls: one request for each chunk, in order. *)
Lemma answers_requests (w : world) (out : jsstring) (n : nat) :
  forall rest i rs,
    answers w i rest rs ->
    requests (synth_outcome w out n i rest).1.2 = map (request_of w) rest.
Proof.
  intros rest i rs Hans. induction Hans as [i|i chunk rest r rs Hr _ IH].
  - done.
  - cbn [synth_outcome]. rewrite Hr.
    destruct (synth_outcome w out n (S i) rest) as [[bs evs] err].
    cbn in *. by rewrite IH.
Qed.

(** Calls answered up to the [k]-th, which is rejected: the loop stops
    there, having asked for the chunks up to that one and no other. *)
Lemma rejection_outcome (w : world) (out : jsstring) (n : nat) :
  forall k rest i rs chunk e,
    answers w i (take k rest) rs ->
    rest !! k = Some chunk ->
    w_speech w (i + k) (Tts.params_of w chunk) = inl e ->
    exists evs,
      synth_outcome w out n i rest = (pieces i rs, evs, Some e)
      /\ requests evs = map (request_of w) (take (S k) rest).
Proof.
  induction k as [|k IH]; intros rest i rs chunk e Hans Hk He;
    destruct rest as [|c rest]; try done; cbn [synth_outcome].
  - simpl in Hk. injection Hk as ->. rewrite Nat.add_0_r in He.
    rewrite He. inversion Hans; subst. by eexists.
  - simpl in Hk, Hans. inversion Hans as [|? ? ? r rs' Hr Hrest]; subst.
    rewrite Hr.
    destruct (IH rest (S i) rs' chunk e Hrest Hk) as (evs & -> & Hreq).
    { by replace (S i + k)%nat with (i + S k)%nat by lia. }
    eexists. split; [reflexivity|]. cbn. f_equal. exact Hreq.
Qed.

(** The loop never closes the stream. *)
Lemma synth_outcome_leaves_open (w : world) (out : jsstring) (n : nat)
    (p : jsstring) :
  forall rest i, FsClose p ∉ (synth_outcome w out n i rest).1.2.
Proof.
  induction rest as [|chunk rest IH]; intros i; cbn [synth_outcome].
  - apply not_elem_of_nil.
  - destruct (w_speech w i (Tts.params_of w chunk)) as [e|buf].
    + cbn. intros Hin.
      repeat (apply elem_of_cons in Hin as [Hin|Hin]; [discriminate Hin|]).
      by apply elem_of_nil in Hin.
    + specialize (IH (S i)).
      destruct (synth_outcome w out n (S i) rest) as [[bs evs] err].
      cbn in *. intros Hin.
      repeat (apply elem_of_cons in Hin as [Hin|Hin]; [discriminate Hin|]).
      done.
Qed.


(** X4 (one request per chunk): in a run whose calls are all answered,
    the requests made are those of the chunks of the trimmed text, one
    for each chunk and in the order of the text, ceil(L / 8000) of them
    for a text of L code units; the run ends with exit code 0 and has
    closed the stream. *)
Theorem one_request_per_chunk `{Platform} (w : world)
    (inFile outFile raw : jsstring) (responses : list buffer) :
  invocation "OPENAI_API_KEY" w inFile outFile raw ->
  trim raw <> [] ->
  answers w 0 (chunker (trim raw)) responses ->
  requests (trace (Tts.run w).2) = map (request_of w) (chunker (trim raw))
  /\ len (requests (trace (Tts.run w).2)) = (len (trim raw) + 7999) / 8000
  /\ exit_code (Tts.run w).1 = 0
  /\ FsClose (resolve outFile) ∈ trace (Tts.run w).2.
Proof.
  intros Hinv Htext Hans.
  rewrite (tts_run w _ _ _ Hinv Htext). unfold tts_outcome.
  pose proof (answers_requests w (resolve outFile)
                (length (chunker (trim raw))) _ _ _ Hans) as Hreq.
  destruct (answers_outcome w (resolve outFile)
              (length (chunker (trim raw))) _ _ _ Hans) as [evs Hout].
  rewrite Hout in *. cbn [fst snd trace exit_code] in *.
  rewrite !requests_app, Hreq. cbn. rewrite app_nil_r.
  split; [done|]. split; [|split; [done|]].
  - unfold len. rewrite length_map.
    destruct (chunker_spec (trim raw)) as (_ & Hlen & _).
    unfold len, CHUNK_LEN in Hlen. rewrite Hlen.
    rewrite Z.sub_0_r, Z.max_r by lia. reflexivity.
  - do 4 right. apply elem_of_app. right. left.
Qed.

Lemma one_request_per_chunk_witness :
  requests (trace (run_openai two_chunk_world).2)
  = [request_of two_chunk_world (repeat 0x61%N (Z.to_nat 8000));
     request_of two_chunk_world (repeat 0x61%N 3)].
Proof.
  destruct (one_request_per_chunk (H := example_platform) two_chunk_world
              (js "/in.txt") (js "/out/speech.wav")
              (map Byte.to_N long_text)
              [riff_header 100 ++ payload 100 "x";
               riff_header 50 ++ payload 50 "y"]) as (Hreq & _).
  - apply example_invocation. reflexivity.
  - vm_compute. discriminate.
  - rewrite long_text_chunks. repeat constructor.
  - unfold run_openai. rewrite Hreq, long_text_chunks. reflexivity.
Defined.

(** X5 (the first rejection ends the run): when the calls before the
    [k]-th are answered and the [k]-th is rejected with [e], the run
    reports that failure with [e] and nothing else, exits with code 1,
    has asked for the chunks up to the [k]-th and for none after it (no
    retry, no skipping), leaves no file at the output path and every
    other file as it was, and has not closed the stream. *)
Theorem first_rejection_ends_the_run `{Platform} (w : world)
    (inFile outFile raw : jsstring) (k : nat) (responses : list buffer)
    (chunk : jsstring) (e : error) :
  invocation "OPENAI_API_KEY" w inFile outFile raw ->
  trim raw <> [] ->
  answers w 0 (take k (chunker (trim raw))) responses ->
  chunker (trim raw) !! k = Some chunk ->
  w_speech w k (Tts.params_of w chunk) = inl e ->
  exists s,
    Tts.run w = (Exit 1, s)
    /\ errors (trace s) = [TtsFailed e]
    /\ requests (trace s)
       = map (request_of w) (take (S k) (chunker (trim raw)))
    /\ fs s = delete (resolve outFile) (w_fs w)
    /\ FsClose (resolve outFile) ∉ trace s.
Proof.
  intros Hinv Htext Hans Hk He.
  rewrite (tts_run w _ _ _ Hinv Htext). unfold tts_outcome.
  destruct (rejection_outcome w (resolve outFile)
              (length (chunker (trim raw))) k _ 0%nat _ _ _ Hans Hk He)
    as (evs & Hout & Hreq).
  pose proof (synth_outcome_errors w (resolve outFile)
                (length (chunker (trim raw))) (chunker (trim raw)) 0) as Herr.
  pose proof (synth_outcome_leaves_open w (resolve outFile)
                (length (chunker (trim raw))) (resolve outFile)
                (chunker (trim raw)) 0) as Hopen.
  rewrite Hout in *. cbn [fst snd] in *.
  eexists. split; [reflexivity|]. cbn [fs trace].
  rewrite !errors_app, !requests_app, Herr, Hreq. cbn.
  rewrite app_nil_r. repeat split; try done.
  intros Hin.
  repeat (apply elem_of_cons in Hin as [Hin|Hin]; [discriminate Hin|]).
  apply elem_of_app in Hin as [Hin|Hin]; [done|].
  repeat (apply elem_of_cons in Hin as [Hin|Hin]; [discriminate Hin|]).
  by apply elem_of_nil in Hin.
Qed.

Lemma first_rejection_ends_the_run_witness :
  exists s,
    run_openai rejecting_world = (Exit 1, s)
    /\ errors (trace s) = [TtsFailed (ProviderError 503)]
    /\ length (requests (trace s)) = 2%nat.
Proof.
  destruct (first_rejection_ends_the_run (H := example_platform)
              rejecting_world (js "/in.txt") (js "/out/speech.wav")
              (map Byte.to_N long_text) 1
              [riff_header 100 ++ payload 100 "x"]
              (repeat 0x61%N 3) (ProviderError 503))
    as (s & Hrun & Herr & Hreq & _).
  - apply example_invocation. reflexivity.
  - vm_compute. discriminate.
  - rewrite long_text_chunks. repeat constructor.
  - rewrite long_text_chunks. reflexivity.
  - reflexivity.
  - exists s. split; [exact Hrun|]. split; [exact Herr|].
    rewrite Hreq, long_text_chunks. reflexivity.
Defined.



(** Every request of a run is the request of a chunk of its text. *)
Lemma run_request_chunk `{Platform} (w : world) (p : speech_params) :
  SpeechCreate p ∈ requests (trace (Tts.run w).2) ->
  exists inFile outFile raw chunk,
    invocation "OPENAI_API_KEY" w inFile outFile raw
    /\ chunk ∈ chunker (trim raw)
    /\ p = Tts.params_of w chunk.
Proof.
  intros Hp.
  destruct (tts_checks_or_invocation w)
    as [(t & Hrun & Hnone)|(inFile & outFile & raw & Hinv & Htext & _)].
  - rewrite Hrun in Hp. cbn [snd trace] in Hp. rewrite Hnone in Hp.
    by apply elem_of_nil in Hp.
  - rewrite (tts_run w _ _ _ Hinv Htext) in Hp. unfold tts_outcome in Hp.
    pose proof (outcome_requests w (resolve outFile)
                  (length (chunker (trim raw))) (chunker (trim raw)) 0
                  (SpeechCreate p)) as Hreq.
    exists inFile, outFile, raw.
    destruct (synth_outcome _ _ _ _ _) as [[bs evs] [e|]];
      cbn [fst snd trace] in *;
      rewrite !requests_app in Hp; cbn in Hp;
      rewrite ?app_nil_r in Hp;
      destruct (Hreq Hp) as (chunk & Hchunk & [= ->]); by exists chunk.
Qed.

(** X7 (what a request carries): every synthesis request of any run
    asks for the configured model and the wav format, and for a text of
    1 to 8000 code units; for the instruction-driven model it carries
    the instructions and neither voice nor speed, whatever those
    variables are set to, and for any other model it carries voice and
    speed and no instructions. *)
Theorem request_shape `{Platform} (w : world) (p : speech_params) :
  SpeechCreate p ∈ requests (trace (Tts.run w).2) ->
  model p = Tts.MODEL w
  /\ format p = js "wav"
  /\ 1 <= len (input p) <= 8000
  /\ (Tts.MODEL w = js "gpt-4o-mini-tts" ->
      instructions p = Some (Tts.INSTR w)
      /\ voice p = None /\ speed p = None)
  /\ (Tts.MODEL w <> js "gpt-4o-mini-tts" ->
      instructions p = None
      /\ voice p = Some (Tts.VOICE w) /\ speed p = Some (Tts.SPEED w)).
Proof.
  intros Hp.
  destruct (run_request_chunk w p Hp)
    as (inFile & outFile & raw & chunk & _ & Hchunk & ->).
  apply list_elem_of_lookup in Hchunk as [j Hj].
  destruct (chunker_spec (trim raw)) as (_ & _ & Hall).
  apply Hall in Hj as [Hlen _]. unfold CHUNK_LEN in Hlen.
  unfold Tts.params_of.
  destruct (decide (Tts.MODEL w = js "gpt-4o-mini-tts")) as [Heq|Hne];
    cbn [model format input instructions voice speed];
    repeat split; try done; try lia; by intros ?.
Qed.

Lemma instruction_world_request :
  requests (trace (run_openai instruction_world).2)
  = [request_of instruction_world (js "Hello world.")].
Proof. vm_compute. reflexivity. Qed.

Lemma request_shape_witness :
  let p := Tts.params_of instruction_world (js "Hello world.") in
  instructions p = Some (js "Calm, slightly dramatic storyteller.")
  /\ voice p = None /\ speed p = None.
Proof.
  intros p.
  destruct (request_shape (H := example_platform) instruction_world p)
    as (_ & _ & _ & Hinstr & _).
  - fold run_openai. rewrite instruction_world_request. left.
  - apply Hinstr. reflexivity.
Defined.

(** X8 (only the output path is touched): whatever the run, neither
    program creates, changes or deletes a file at any path other than
    the resolved output path. *)
Theorem other_files_are_untouched `{Platform} (w : world) (p : jsstring) :
  p <> output_path w ->
  fs (Tts.run w).2 !! p = w_fs w !! p
  /\ fs (Gemini.run w).2 !! p = w_fs w !! p.
Proof.
  unfold output_path. intros Hp. split.
  - destruct (tts_checks_or_invocation w)
      as [(t & Hrun & _)|(inFile & outFile & raw & Hinv & Htext & Hout)].
    + by rewrite Hrun.
    + rewrite Hout in Hp. cbn in Hp.
      rewrite (tts_run w _ _ _ Hinv Htext). unfold tts_outcome.
      destruct (synth_outcome _ _ _ _ _) as [[bs evs] [e|]]; cbn [snd fs].
      * by rewrite lookup_delete_ne.
      * by rewrite lookup_insert_ne.
  - destruct (gemini_checks_or_invocation w)
      as [(t & Hrun & _)|(inFile & outFile & raw & Hinv & Htext & Hout)].
    + by rewrite Hrun.
    + rewrite Hout in Hp. cbn in Hp.
      rewrite (gemini_run w _ _ _ Hinv Htext). unfold gemini_outcome.
      destruct (w_generate w _) as [e|reply]; [done|].
      destruct (Gemini.audio_of reply) as [[|c b64]|]; try done.
      destruct (Gemini.wav_header _ _) as [e|header]; [done|].
      destruct (w_write_fault w) as [k|]; [case_bool_decide|];
        cbn [snd fs]; by rewrite lookup_insert_ne.
Qed.

Lemma other_files_are_untouched_witness :
  fs (run_openai rejecting_world).2 !! js "/in.txt" = Some long_text.
Proof.
  destruct (other_files_are_untouched (H := example_platform)
              rejecting_world (js "/in.txt")) as [Hopenai _].
  - discriminate.
  - unfold run_openai. rewrite Hopenai. reflexivity.
Defined.

(** X10 (output over the input): nothing keeps the output path from
    being the input path.  Then a run with a rejected call leaves no
    file there at all, the input text being lost, and a run whose calls
    are all answered leaves the audio in its place. *)
Theorem output_over_input `{Platform} (w : world)
    (inFile outFile raw : jsstring) :
  invocation "OPENAI_API_KEY" w inFile outFile raw ->
  trim raw <> [] ->
  resolve inFile = resolve outFile ->
  (rejected w 0 (chunker (trim raw)) ->
   fs (Tts.run w).2 !! resolve inFile = None)
  /\ (forall responses,
        answers w 0 (chunker (trim raw)) responses ->
        fs (Tts.run w).2 !! resolve inFile
        = Some (concat (pieces 0 responses))).
Proof.
  intros Hinv Htext Hsame. rewrite Hsame. split.
  - intros Hrej. rewrite (tts_run w _ _ _ Hinv Htext). unfold tts_outcome.
    destruct (rejected_outcome w (resolve outFile)
                (length (chunker (trim raw))) _ _ Hrej)
      as (bs & evs & e & ->).
    apply lookup_delete_eq.
  - intros responses Hans.
    destruct (tts_assembled w _ _ _ _ Hinv Htext Hans) as (s & -> & Hfile).
    exact Hfile.
Qed.

Lemma output_over_input_witness :
  w_fs overwriting_world !! js "/in.txt" = Some (ascii_bytes "Hello world.")
  /\ fs (run_openai overwriting_world).2 !! js "/in.txt" = None.
Proof.
  split; [reflexivity|].
  destruct (output_over_input (H := example_platform) overwriting_world
              (js "/in.txt") (js "/in.txt")
              (map Byte.to_N (ascii_bytes "Hello world."))) as [Hlost _].
  - apply (invocation_intro (H := example_platform) _ _ _ _
             (ascii_bytes "Hello world.")); reflexivity.
  - vm_compute. discriminate.
  - reflexivity.
  - apply Hlost.
    exists 0%nat, (js "Hello world."), (ProviderError 0).
    split; reflexivity.
Defined.

Lemma len_stripped (rs : list buffer) :
  len (concat (map (drop 44) rs)) = stripped_total rs.
Proof.
  induction rs as [|r rs IH]; [done|].
  cbn [map concat stripped_total fold_right]. fold (stripped_total rs).
  rewrite <- IH. unfold len. rewrite length_app, length_drop. lia.
Qed.

(** X11 (size of the assembled file): when every call is answered, the
    output file has the length of the first response plus, for each
    later response, its length less 44, or nothing if it is shorter
    than that. *)
Theorem assembled_file_length `{Platform} (w : world)
    (inFile outFile raw : jsstring) (first : buffer)
    (others : list buffer) :
  invocation "OPENAI_API_KEY" w inFile outFile raw ->
  trim raw <> [] ->
  answers w 0 (chunker (trim raw)) (first :: others) ->
  exists file,
    fs (Tts.run w).2 !! resolve outFile = Some file
    /\ len file = len first + stripped_total others.
Proof.
  intros Hinv Htext Hans.
  destruct (tts_assembled w _ _ _ _ Hinv Htext Hans) as (s & -> & Hfile).
  eexists. split; [exact Hfile|].
  rewrite pieces_first, <- len_stripped. unfold len.
  rewrite length_app. lia.
Qed.

Lemma assembled_file_length_witness :
  exists file,
    fs (run_openai short_response_world).2 !! js "/out/speech.wav"
    = Some file
    /\ len file = 144.
Proof.
  destruct (assembled_file_length (H := example_platform)
              short_response_world (js "/in.txt") (js "/out/speech.wav")
              (map Byte.to_N long_text)
              (riff_header 100 ++ payload 100 "x") [payload 10 "y"])
    as (file & Hfile & Hlen).
  - apply example_invocation. reflexivity.
  - vm_compute. discriminate.
  - rewrite long_text_chunks. repeat constructor.
  - exists file. split; [exact Hfile|]. rewrite Hlen. reflexivity.
Defined.

(** ** [saveWav] at any sample rate, and out of range *)


Lemma wav_header_rate_overflow (D rate : Z) :
  0 <= D -> 36 + D <= 2 ^ 32 - 1 ->
  rate < 0 \/ 2 ^ 32 - 1 < rate * 2 ->
  Gemini.wav_header D rate = inl RangeError.
Proof.
  intros H0 Hmax Hrate.
  unfold Gemini.wav_header, writeUInt32LE, writeUInt16LE, writeUIntLE.
  change (2 ^ (8 * Z.of_nat 4) - 1) with 4294967295 in *.
  change (2 ^ 32 - 1) with 4294967295 in *.
  destruct (Z.ltb_spec (36 + D) 0); [lia|].
  destruct (Z.ltb_spec 4294967295 (36 + D)); [lia|].
  destruct (Z.ltb_spec rate 0); [reflexivity|].
  destruct (Z.ltb_spec 4294967295 rate); [reflexivity|].
  destruct (Z.ltb_spec (rate * 2) 0); [lia|].
  destruct (Z.ltb_spec 4294967295 (rate * 2)); [reflexivity|lia].
Qed.




(** X13 ([saveWav] out of range): when the payload is too long for the
    32-bit size fields (36 + D > 2^32 - 1), or the sample rate is
    negative or its byte rate too large for 32 bits, [saveWav] throws a
    RangeError while it builds the header: no directory is made and no
    file is written. *)
Theorem saveWav_out_of_range `{Platform} (w : world) (filename : jsstring)
    (pcm : buffer) (rate : Z) (s : state) :
  2 ^ 32 - 1 < 36 + len pcm \/ rate < 0 \/ 2 ^ 32 - 1 < rate * 2 ->
  Gemini.saveWav w filename pcm rate s = (Throw RangeError, s).
Proof.
  intros Hrange. unfold Gemini.saveWav.
  pose proof (len_nonneg pcm) as Hpcm.
  assert (Gemini.wav_header (len pcm) rate = inl RangeError) as ->;
    [|reflexivity].
  destruct (Z.le_gt_cases (36 + len pcm) (2 ^ 32 - 1)) as [Hfit|Hbig].
  - apply wav_header_rate_overflow; lia.
  - unfold Gemini.wav_header, writeUInt32LE, writeUIntLE.
    change (2 ^ (8 * Z.of_nat 4) - 1) with 4294967295 in *.
    change (2 ^ 32 - 1) with 4294967295 in *.
    destruct (Z.ltb_spec (36 + len pcm) 0); [lia|].
    destruct (Z.ltb_spec 4294967295 (36 + len pcm)); [|lia].
    reflexivity.
Qed.

Lemma saveWav_out_of_range_witness :
  @Gemini.saveWav example_platform no_key_world (js "/out/speech.wav")
    (payload 4 "x") 4000000000 (start no_key_world)
  = (Throw RangeError, start no_key_world).
Proof.
  apply (saveWav_out_of_range (H := example_platform)).
  right. right. vm_compute. reflexivity.
Defined.

(** ** The runs of the single-shot program *)

(** X14 (a successful single-shot run): when the reply carries a
    non-empty base64 payload whose bytes fit the size fields and the
    write does not fail, the run makes exactly one request, whose text
    is the style, a colon and a line feed, and the trimmed input; it
    reports no error, ends with exit code 0, and the output file is the
    header for the decoded payload followed by that payload; no other
    file changes. *)
Theorem single_shot_success `{Platform} (w : world)
    (inFile outFile raw : jsstring) (reply : option response)
    (b64 : jsstring) :
  invocation "GEMINI_API_KEY" w inFile outFile raw ->
  trim raw <> [] ->
  w_generate w (gemini_params w (trim raw)) = inr reply ->
  Gemini.audio_of reply = Some b64 -> b64 <> [] ->
  36 + len (base64_decode b64) <= 2 ^ 32 - 1 ->
  w_write_fault w = None ->
  exists s,
    Gemini.run w = (Val tt, s)
    /\ requests (trace s) = [GenerateContent (gemini_params w (trim raw))]
    /\ g_text (gemini_params w (trim raw))
       = Gemini.STYLE w ++ [0x3A; 0xA]%N ++ trim raw
    /\ errors (trace s) = []
    /\ fs s = <[resolve outFile :=
                  riff_header (len (base64_decode b64))
                  ++ base64_decode b64]> (w_fs w).
Proof.
  intros Hinv Htext Hreply Haudio Hb64 Hmax Hfault.
  rewrite (gemini_run w _ _ _ Hinv Htext). unfold gemini_outcome.
  rewrite Hreply, Haudio, Hfault. destruct b64 as [|c b64]; [done|].
  rewrite wav_header_ok by (pose proof (len_nonneg (base64_decode (c :: b64))); lia).
  by eexists.
Qed.

Lemma single_shot_success_witness :
  exists s,
    run_gemini (gemini_world (ascii_bytes "Hello world.")
                  (inr (audio_reply ten_bytes)) None) = (Val tt, s)
    /\ fs s !! js "/out/speech.wav"
       = Some (riff_header 10 ++ map byte_of_Z [0;1;2;3;4;5;6;7;8;9]).
Proof.
  destruct (single_shot_success (H := example_platform)
              (gemini_world (ascii_bytes "Hello world.")
                 (inr (audio_reply ten_bytes)) None)
              (js "/in.txt") (js "/out/speech.wav")
              (map Byte.to_N (ascii_bytes "Hello world."))
              (audio_reply ten_bytes) ten_bytes)
    as (s & Hrun & _ & _ & _ & Hfs).
  - apply example_invocation. reflexivity.
  - vm_compute. discriminate.
  - reflexivity.
  - reflexivity.
  - discriminate.
  - vm_compute. discriminate.
  - reflexivity.
  - exists s. split; [exact Hrun|]. rewrite Hfs. apply lookup_insert_eq.
Defined.

(** X15 (only the first part of the first candidate is looked at): when
    the first part of the first candidate of the reply has no inline
    data (or empty data), the run reports that no audio was returned and
    writes nothing, whatever the later parts and the other candidates
    carry. *)
Theorem audio_is_read_from_the_first_part `{Platform} (w : world)
    (inFile outFile raw : jsstring) (first : part) (later : list part)
    (others : list candidate) :
  invocation "GEMINI_API_KEY" w inFile outFile raw ->
  trim raw <> [] ->
  w_generate w (gemini_params w (trim raw))
  = inr (Some {| candidates := Some
           ({| content_of := Some {| parts := Some (first :: later) |} |}
              :: others) |}) ->
  truthy (d ← inlineData first; data d) = false ->
  exists s,
    Gemini.run w = (Exit 1, s)
    /\ errors (trace s) = [NoAudioReturned]
    /\ fs s = w_fs w.
Proof.
  intros Hinv Htext Hreply Hfirst.
  rewrite (gemini_run w _ _ _ Hinv Htext). unfold gemini_outcome.
  rewrite Hreply. unfold Gemini.audio_of. cbn.
  destruct (inlineData first) as [d|]; cbn in *; [|by eexists].
  destruct (data d) as [[|c b64]|]; try done; by eexists.
Qed.

Lemma audio_is_read_from_the_first_part_witness :
  exists s,
    run_gemini (gemini_world (ascii_bytes "Hello world.")
                  (inr audio_in_second_part) None) = (Exit 1, s)
    /\ errors (trace s) = [NoAudioReturned].
Proof.
  destruct (audio_is_read_from_the_first_part (H := example_platform)
              (gemini_world (ascii_bytes "Hello world.")
                 (inr audio_in_second_part) None)
              (js "/in.txt") (js "/out/speech.wav")
              (map Byte.to_N (ascii_bytes "Hello world."))
              {| inlineData := None |}
              [ {| inlineData := Some {| data := Some ten_bytes |} |} ] [])
    as (s & Hrun & Herr & _).
  - apply example_invocation. reflexivity.
  - vm_compute. discriminate.
  - reflexivity.
  - reflexivity.
  - exists s. split; [exact Hrun|exact Herr].
Defined.

(** X16 (a write that fails part-way): when the device takes only [k]
    bytes of the file, fewer than its 44 + D, the single-shot program
    reports the failure as a failed generation and exits with code 1,
    and the first [k] bytes of the file stay at the output path: the
    handler deletes nothing. *)
Theorem failed_write_leaves_its_bytes `{Platform} (w : world)
    (inFile outFile raw : jsstring) (reply : option response)
    (b64 : jsstring) (k : nat) :
  invocation "GEMINI_API_KEY" w inFile outFile raw ->
  trim raw <> [] ->
  w_generate w (gemini_params w (trim raw)) = inr reply ->
  Gemini.audio_of reply = Some b64 -> b64 <> [] ->
  36 + len (base64_decode b64) <= 2 ^ 32 - 1 ->
  w_write_fault w = Some k ->
  (k < 44 + length (base64_decode b64))%nat ->
  exists s,
    Gemini.run w = (Exit 1, s)
    /\ errors (trace s) = [GenerationFailed IOError]
    /\ fs s = <[resolve outFile :=
                  take k (riff_header (len (base64_decode b64))
                          ++ base64_decode b64)]> (w_fs w)
    /\ FsUnlink (resolve outFile) ∉ trace s.
Proof.
  intros Hinv Htext Hreply Haudio Hb64 Hmax Hfault Hk.
  rewrite (gemini_run w _ _ _ Hinv Htext). unfold gemini_outcome.
  rewrite Hreply, Haudio, Hfault. destruct b64 as [|c b64]; [done|].
  rewrite wav_header_ok by (pose proof (len_nonneg (base64_decode (c :: b64))); lia).
  rewrite bool_decide_eq_true_2
    by (rewrite length_app, length_riff_header; lia).
  eexists. split; [reflexivity|]. repeat split; try done.
  cbn. intros Hin.
  repeat (apply elem_of_cons in Hin as [Hin|Hin]; [discriminate Hin|]).
  by apply elem_of_nil in Hin.
Qed.

Lemma failed_write_leaves_its_bytes_witness :
  exists s,
    run_gemini (gemini_world (ascii_bytes "Hello world.")
                  (inr (audio_reply ten_bytes)) (Some 10%nat)) = (Exit 1, s)
    /\ fs s !! js "/out/speech.wav"
       = Some (take 10 (riff_header 10
                        ++ map byte_of_Z [0;1;2;3;4;5;6;7;8;9])).
Proof.
  destruct (failed_write_leaves_its_bytes (H := example_platform)
              (gemini_world (ascii_bytes "Hello world.")
                 (inr (audio_reply ten_bytes)) (Some 10%nat))
              (js "/in.txt") (js "/out/speech.wav")
              (map Byte.to_N (ascii_bytes "Hello world."))
              (audio_reply ten_bytes) ten_bytes 10)
    as (s & Hrun & _ & Hfs & _).
  - apply example_invocation. reflexivity.
  - vm_compute. discriminate.
  - reflexivity.
  - reflexivity.
  - discriminate.
  - vm_compute. discriminate.
  - reflexivity.
  - vm_compute. lia.
  - exists s. split; [exact Hrun|]. rewrite Hfs. apply lookup_insert_eq.
Defined.

(** ** Where the chunks lie in the text *)

Lemma chunk_loop_lookup (text : jsstring) (fuel : nat) :
  forall (i : Z) (acc : list jsstring) (j : nat),
    0 <= i -> len text - i <= Z.of_nat fuel ->
    chunk_loop fuel text i acc !! (length acc + j)%nat
    = if i + CHUNK_LEN * Z.of_nat j <? len text
      then Some (slice text (i + CHUNK_LEN * Z.of_nat j)
                   (i + CHUNK_LEN * Z.of_nat j + CHUNK_LEN))
      else None.
Proof.
  unfold CHUNK_LEN.
  induction fuel as [|fuel IH]; intros i acc j Hi Hfuel; cbn [chunk_loop];
    unfold CHUNK_LEN.
  - destruct (Z.ltb_spec (i + 8000 * Z.of_nat j) (len text)); [lia|].
    apply lookup_ge_None. lia.
  - destruct (Z.ltb_spec i (len text)) as [Hlt|Hge].
    + destruct j as [|j].
      * destruct (chunk_loop_spec text fuel (i + CHUNK_LEN)
                    (acc ++ [slice text i (i + CHUNK_LEN)]))
          as (new & Heq & _); unfold CHUNK_LEN in *; [lia..|].
        rewrite Heq, Nat.add_0_r, <- app_assoc.
        rewrite lookup_app_r by lia. rewrite Nat.sub_diag. cbn.
        rewrite Z.add_0_r.
        destruct (Z.ltb_spec i (len text)); [done|lia].
      * replace (length acc + S j)%nat
          with (length (acc ++ [slice text i (i + 8000)]) + j)%nat
          by (rewrite length_app; simpl; lia).
        rewrite IH by lia.
        replace (i + 8000 + 8000 * Z.of_nat j)
          with (i + 8000 * Z.of_nat (S j)) by lia.
        reflexivity.
    + destruct (Z.ltb_spec (i + 8000 * Z.of_nat j) (len text)); [lia|].
      apply lookup_ge_None. lia.
Qed.

(** X17 (where the chunks lie): the [j]-th chunk is the slice of the
    text from code unit 8000 j to 8000 j + 8000 (or to the end of the
    text), for every [j] with 8000 j below the length of the text, and
    there is no chunk beyond those. *)
Theorem chunk_is_a_slice (text : jsstring) (j : nat) :
  chunker text !! j
  = if 8000 * Z.of_nat j <? len text
    then Some (slice text (8000 * Z.of_nat j) (8000 * Z.of_nat j + 8000))
    else None.
Proof.
  unfold chunker.
  pose proof (chunk_loop_lookup text (length text) 0 [] j) as Hj.
  unfold CHUNK_LEN in Hj. cbn [length Nat.add] in Hj.
  rewrite !Z.add_0_l in Hj. apply Hj; unfold len; lia.
Qed.

(** ** Little-endian fields *)

Lemma length_overwrite (buf : buffer) (offset : Z) (bs : list byte) :
  0 <= offset -> offset + len bs <= len buf ->
  length (overwrite buf offset bs) = length buf.
Proof.
  unfold overwrite, len. intros Ho Hin.
  rewrite !length_app, length_take, length_drop. lia.
Qed.

(** X18 (a field written is the field read): writing a value of [n]
    bytes that fits (0 <= v <= 2^(8n) - 1) at an offset within the
    buffer succeeds, keeps the length of the buffer and the bytes before
    and after the field, and the field reads back as the value; a value
    that does not fit, or an offset outside the buffer, makes the write
    throw a RangeError. *)
Theorem field_write_then_read (n : nat) (buf : buffer) (v offset : Z) :
  (0 <= v <= 2 ^ (8 * Z.of_nat n) - 1 ->
   0 <= offset -> offset + Z.of_nat n <= len buf ->
   exists buf',
     writeUIntLE n buf v offset = inr buf'
     /\ length buf' = length buf
     /\ readUIntLE n buf' offset = Some v
     /\ take (Z.to_nat offset) buf' = take (Z.to_nat offset) buf
     /\ drop (Z.to_nat offset + n) buf' = drop (Z.to_nat offset + n) buf)
  /\ (v < 0 \/ 2 ^ (8 * Z.of_nat n) - 1 < v
      \/ offset < 0 \/ len buf < offset + Z.of_nat n ->
      writeUIntLE n buf v offset = inl RangeError).
Proof.
  split.
  - intros Hv Ho Hin. unfold writeUIntLE.
    destruct (Z.ltb_spec v 0); [lia|].
    destruct (Z.ltb_spec (2 ^ (8 * Z.of_nat n) - 1) v); [lia|].
    destruct (Z.ltb_spec offset 0); [lia|].
    destruct (Z.ltb_spec (len buf) (offset + Z.of_nat n)); [lia|].
    cbn [orb]. eexists. split; [reflexivity|].
    assert (length (overwrite buf offset (le_bytes n v)) = length buf)
      as Hlen.
    { apply length_overwrite; [lia|].
      unfold len in *. rewrite length_le_bytes. lia. }
    unfold len in *. split; [exact Hlen|].
    unfold overwrite. repeat split.
    + apply readUIntLE_field; try lia.
      * fold (overwrite buf offset (le_bytes n v)). unfold len.
        rewrite Hlen. lia.
      * rewrite drop_app_length'
          by (rewrite length_take; lia).
        rewrite take_app_length'; [done|]. by rewrite length_le_bytes.
    + rewrite take_app_length'; [done|]. rewrite length_take. lia.
    + rewrite length_le_bytes, app_assoc.
      rewrite drop_app_length'; [done|].
      rewrite length_app, length_take, length_le_bytes. lia.
  - intros Hbad. unfold writeUIntLE.
    destruct (Z.ltb_spec v 0); [done|].
    destruct (Z.ltb_spec (2 ^ (8 * Z.of_nat n) - 1) v); [done|].
    destruct (Z.ltb_spec offset 0); [done|].
    destruct (Z.ltb_spec (len buf) (offset + Z.of_nat n)); [done|lia].
Qed.

Lemma field_write_then_read_witness :
  exists buf',
    writeUInt32LE (Buffer_alloc 44) 24000 24 = inr buf'
    /\ readUInt32LE buf' 24 = Some 24000.
Proof.
  destruct (field_write_then_read 4 (Buffer_alloc 44) 24000 24)
    as [Hfits _].
  destruct Hfits as (buf' & Hwrite & _ & Hread & _).
  - vm_compute. split; discriminate.
  - lia.
  - vm_compute. discriminate.
  - exists buf'. split; [exact Hwrite|exact Hread].
Defined.

(** X19 (at most one request, of the whole text): whatever the run, the
    single-shot program asks the provider at most once; when it asks,
    every check has passed and the one request carries the whole
    trimmed text after the style, however long the text is: there is no
    chunking in this program. *)
Theorem single_shot_asks_at_most_once `{Platform} (w : world) :
  requests (trace (Gemini.run w).2) = []
  \/ exists inFile outFile raw,
       invocation "GEMINI_API_KEY" w inFile outFile raw
       /\ trim raw <> []
       /\ requests (trace (Gemini.run w).2)
          = [GenerateContent
               {| g_model := Gemini.MODEL w;
                  g_text := Gemini.STYLE w ++ [0x3A; 0xA]%N ++ trim raw;
                  g_voiceName := Gemini.VOICE w |}].
Proof.
  destruct (gemini_checks_or_invocation w)
    as [(t & Hrun & Hnone)|(inFile & outFile & raw & Hinv & Htext & _)].
  - left. by rewrite Hrun.
  - right. exists inFile, outFile, raw. split; [done|]. split; [done|].
    rewrite (gemini_run w _ _ _ Hinv Htext). unfold gemini_outcome.
    fold (gemini_params w (trim raw)).
    destruct (w_generate w _) as [e|reply]; [done|].
    destruct (Gemini.audio_of reply) as [[|c b64]|]; try done.
    destruct (Gemini.wav_header _ _) as [e|header]; [done|].
    by destruct (w_write_fault w) as [k|]; [case_bool_decide|].
Qed.

(** ** Failed synthesis, and the speed *)

(** C3, as amended (failure atomicity, for a failed synthesis): when one
    of the synthesis requests of the chunked program is rejected, the
    run reports it, deletes the partly written output file and exits
    with code 1, so that no file is left at the output path.  A run of
    the single-shot program whose request is rejected, whose reply
    carries no audio, or whose payload is too long for the size fields
    reports it and exits with code 1 with nothing written: the file
    system is as the run found it. *)
Theorem failed_synthesis_leaves_no_file `{Platform} (w : world)
    (inFile outFile raw : jsstring) :
  trim raw <> [] ->
  (invocation "OPENAI_API_KEY" w inFile outFile raw ->
   rejected w 0 (chunker (trim raw)) ->
   exists s e,
     Tts.run w = (Exit 1, s)
     /\ errors (trace s) = [TtsFailed e]
     /\ FsUnlink (resolve outFile) ∈ trace s
     /\ fs s !! resolve outFile = None)
  /\ (invocation "GEMINI_API_KEY" w inFile outFile raw ->
      (forall e,
         w_generate w (gemini_params w (trim raw)) = inl e ->
         exists s, Gemini.run w = (Exit 1, s)
                   /\ errors (trace s) = [GenerationFailed e]
                   /\ fs s = w_fs w)
      /\ (forall reply,
            w_generate w (gemini_params w (trim raw)) = inr reply ->
            truthy (Gemini.audio_of reply) = false ->
            exists s, Gemini.run w = (Exit 1, s)
                      /\ errors (trace s) = [NoAudioReturned]
                      /\ fs s = w_fs w)
      /\ (forall reply b64,
            w_generate w (gemini_params w (trim raw)) = inr reply ->
            Gemini.audio_of reply = Some b64 -> b64 <> [] ->
            2 ^ 32 - 1 < 36 + len (base64_decode b64) ->
            exists s, Gemini.run w = (Exit 1, s)
                      /\ errors (trace s) = [GenerationFailed RangeError]
                      /\ fs s = w_fs w)).
Proof.
  intros Htext. split.
  - intros Hinv Hrej.
    rewrite (tts_run w _ _ _ Hinv Htext). unfold tts_outcome.
    pose proof (synth_outcome_errors w (resolve outFile)
                  (length (chunker (trim raw))) (chunker (trim raw)) 0)
      as Herr.
    destruct (rejected_outcome w (resolve outFile)
                (length (chunker (trim raw))) _ _ Hrej)
      as (bs & evs & e & Hout).
    rewrite Hout in *. cbn [fst snd] in Herr.
    exists {| fs := delete (resolve outFile) (w_fs w);
              trace := [FsExists (resolve inFile); FsRead (resolve inFile);
                        FsMkdir (dirname (resolve outFile));
                        FsOpen (resolve outFile)] ++ evs
                       ++ [Stderr (TtsFailed e); FsExists (resolve outFile);
                           FsUnlink (resolve outFile)] |}, e.
    split; [reflexivity|]. cbn [fs trace].
    rewrite !errors_app, Herr. split; [reflexivity|].
    split; [|apply lookup_delete_eq].
    apply elem_of_app. right. apply elem_of_app. right.
    do 2 right. left.
  - intros Hinv.
    rewrite (gemini_run w _ _ _ Hinv Htext). unfold gemini_outcome.
    split; [|split].
    + intros e ->. by eexists.
    + intros reply -> Haudio.
      destruct (Gemini.audio_of reply) as [[|c b64]|]; try done; by eexists.
    + intros reply b64 -> -> Hb64 Hbig. destruct b64 as [|c b64]; [done|].
      rewrite wav_header_overflow by done. by eexists.
Qed.

Lemma failed_synthesis_leaves_no_file_witness :
  exists s e,
    run_openai rejecting_world = (Exit 1, s)
    /\ errors (trace s) = [TtsFailed e]
    /\ fs s !! js "/out/speech.wav" = None.
Proof.
  destruct (failed_synthesis_leaves_no_file (H := example_platform)
              rejecting_world (js "/in.txt") (js "/out/speech.wav")
              (map Byte.to_N long_text)) as [Hrejected _].
  - vm_compute. discriminate.
  - destruct Hrejected as (s & e & Hrun & Herr & _ & Hfile).
    + apply example_invocation. reflexivity.
    + rewrite long_text_chunks.
      exists 1%nat, (repeat 0x61%N 3), (ProviderError 503).
      split; reflexivity.
    + exists s, e. split; [exact Hrun|]. split; [exact Herr|exact Hfile].
Defined.


(** [parseFloat] and the head of the string, on examples. *)
Example starts_with_number_fast : starts_with_number (js "fast") = false.
Proof. reflexivity. Qed.

Example starts_with_number_signed_fraction :
  starts_with_number (js " -.5x") = true
  /\ parseFloat (js " -.5x") = Decimal true 5 (-1).
Proof. split; reflexivity. Qed.

Example speed_sent_out_of_range :
  speed_sent (Some (js "7.5")) = Decimal false 75 (-1)
  /\ speed_sent (Some []) = Decimal false 10 (-1)
  /\ speed_sent None = Decimal false 10 (-1).
Proof. repeat split; reflexivity. Qed.




